(** * Movie recommendation engine: a shallow embedding and its properties

    The development follows [recommender.py], [data_loader.py] and the
    hybrid branch of [app.py].  DataFrames are lists of records in row
    order, a pandas [Series] is an association list (labels may repeat and
    order matters), Python exceptions are values of [exn], and slices such
    as [l[1:n+1]] or [head(n)] keep Python's treatment of negative and
    overlong bounds.  Similarity scores are finite float64 values that the
    code only compares, so they are rationals here; the hybrid weight is a
    float64 on which the code does arithmetic, so it is a primitive float;
    the TF-IDF weights need logarithms and square roots and are stated over
    the real numbers. *)

From Stdlib Require Import Reals Lra.
From Stdlib Require Import Floats.PrimFloat.
From Stdlib Require Floats.SpecFloat Floats.FloatOps.
From Stdlib Require Import Ascii String.
From Stdlib Require Import ZArith QArith List Bool Lia Permutation Sorted.
Import ListNotations.

Set Warnings "-inexact-float".

Open Scope string_scope.
Open Scope list_scope.
Open Scope Z_scope.

(* ================================================================== *)
(** * Part I: the program                                              *)
(* ================================================================== *)

(** ** Exceptions and results *)

Inductive exn : Set :=
| KeyError
| ValueError
| IndexError
| OverflowError.

Inductive result (A : Type) : Type :=
| Ok (a : A)
| Raise (e : exn).
Arguments Ok {A} a.
Arguments Raise {A} e.

Definition bind {A B : Type} (c : result A) (k : A -> result B) : result B :=
  match c with
  | Ok a => k a
  | Raise e => Raise e
  end.

Notation "x <- c ;; k" := (bind c (fun x => k))
  (at level 61, c at next level, right associativity).

Fixpoint mapM {A B : Type} (f : A -> result B) (l : list A) : result (list B) :=
  match l with
  | [] => Ok []
  | a :: l' => b <- f a ;; bs <- mapM f l' ;; Ok (b :: bs)
  end.

(** ** Python sequences *)

(** A slice bound as [PySlice_AdjustIndices] clamps it (step 1). *)
Definition slice_bound (len i : Z) : Z :=
  if i <? 0 then Z.max 0 (len + i) else Z.min i len.

(** [l[start:stop]]. *)
Definition py_slice {A : Type} (start stop : Z) (l : list A) : list A :=
  let len := Z.of_nat (length l) in
  let lo := slice_bound len start in
  let hi := slice_bound len stop in
  firstn (Z.to_nat (hi - lo)) (skipn (Z.to_nat lo) l).

(** [list(enumerate(l))]. *)
Definition enumerate {A : Type} (l : list A) : list (nat * A) :=
  combine (seq 0 (length l)) l.

(** [x in l] for a list of strings. *)
Definition str_in (x : string) (l : list string) : bool :=
  existsb (String.eqb x) l.

(** [x in l] for integer labels ([isin], [drop]). *)
Definition Z_in (x : Z) (l : list Z) : bool :=
  existsb (Z.eqb x) l.

(** [sorted(l, key=lambda x: x[1], reverse=True)]: Python's sort is stable,
    also with [reverse=True], so entries of equal score keep their original
    order.  [insert_desc x l] puts [x] in front of the first entry whose
    score is not larger. *)
Fixpoint insert_desc {A : Type} (x : A * Q) (l : list (A * Q)) : list (A * Q) :=
  match l with
  | [] => [x]
  | y :: l' =>
      if Qle_bool (snd y) (snd x) then x :: y :: l' else y :: insert_desc x l'
  end.

Definition sorted_desc {A : Type} (l : list (A * Q)) : list (A * Q) :=
  fold_right insert_desc [] l.

(** [a] may stand before [b] in a descending order of the scores. *)
Definition score_ge {A : Type} (a b : A * Q) : Prop := (snd b <= snd a)%Q.

(** ** The two tables *)

Module Movies.
(** A row of [movies_df]: [flags] are the 19 genre indicator columns. *)
Record row : Type := mk {
  movie_id : Z;
  title : string;
  flags : list bool
}.
End Movies.

Module Ratings.
Record row : Type := mk {
  user_id : Z;
  movie_id : Z;
  rating : Z;
  timestamp : Z
}.
End Ratings.

(** The 19 genre columns of [u.item], in the order of [movie_cols[5:]]. *)
Definition genre_cols : list string :=
  ["unknown"; "action"; "adventure"; "animation"; "childrens"; "comedy";
   "crime"; "documentary"; "drama"; "fantasy"; "film-noir"; "horror";
   "musical"; "mystery"; "romance"; "sci-fi"; "thriller"; "war"; "western"].

(** ** Series *)

(** A pandas Series: labels with their values, in order. *)
Definition Series (L V : Type) : Type := list (L * V).

(** [Series.drop_duplicates()] keeps the first entry of every VALUE; the
    labels play no part in it. *)
Fixpoint drop_duplicates_from {L : Type} (seen : list nat) (s : Series L nat)
  : Series L nat :=
  match s with
  | [] => []
  | (l, v) :: s' =>
      if existsb (Nat.eqb v) seen then drop_duplicates_from seen s'
      else (l, v) :: drop_duplicates_from (v :: seen) s'
  end.

Definition drop_duplicates {L : Type} (s : Series L nat) : Series L nat :=
  drop_duplicates_from [] s.

(** [title in indices]: membership among the labels. *)
Definition series_contains (t : string) (s : Series string nat) : bool :=
  existsb (fun e => String.eqb (fst e) t) s.

(** [indices[title]]: a scalar when the label occurs once, the sub-series of
    all its entries when it occurs several times. *)
Inductive getitem_result : Type :=
| Scalar (v : nat)
| SubSeries (vs : list nat).

Definition series_getitem (t : string) (s : Series string nat)
  : result getitem_result :=
  match map snd (filter (fun e => String.eqb (fst e) t) s) with
  | [] => Raise KeyError
  | [v] => Ok (Scalar v)
  | vs => Ok (SubSeries vs)
  end.

(** [a[i]] on a sequence or on the rows of an array, with a position that is
    not negative. *)
Definition getitem {A : Type} (l : list A) (i : nat) : result A :=
  match nth_error l i with
  | Some a => Ok a
  | None => Raise IndexError
  end.

(** ** data_loader.load_data: the reverse map of titles to rows *)

(** [pd.Series(movies_df.index, index=movies_df['title']).drop_duplicates()]
    where [movies_df] carries the default index [0 .. n-1]. *)
Definition load_data_indices (movies_df : list Movies.row) : Series string nat :=
  drop_duplicates
    (combine (map Movies.title movies_df) (seq 0 (length movies_df))).

(** ** recommender.get_content_based_recommendations *)

(** When [indices[title]] is a sub-series, [similarity_matrix[idx]] is a block
    of rows, [enumerate] pairs each ROW with its position in the block, and
    [sorted] has to order arrays: the truth value of [row_a < row_b] is
    ambiguous and numpy raises [ValueError] (rows of a catalog of two movies
    or more have at least two entries). *)
Definition get_content_based_recommendations
    (title : string) (movies_df : list Movies.row)
    (similarity_matrix : list (list Q)) (indices : Series string nat)
    (num_recommendations : Z) : result (list string) :=
  if negb (series_contains title indices) then Ok []
  else
    idx <- series_getitem title indices ;;
    match idx with
    | SubSeries vs =>
        _ <- mapM (getitem similarity_matrix) vs ;;
        Raise ValueError
    | Scalar i =>
        row <- getitem similarity_matrix i ;;
        let sim_scores := enumerate row in
        let sim_scores := sorted_desc sim_scores in
        let sim_scores := py_slice 1 (num_recommendations + 1) sim_scores in
        let movie_indices := map fst sim_scores in
        mapM (getitem (map Movies.title movies_df)) movie_indices
    end.

(** ** DataFrame.pivot and the movie-by-user matrix *)

(** The frame that [pivot(...).fillna(0)] returns: the sorted distinct
    movie ids label the rows, the sorted distinct user ids the columns. *)
Record PivotTable : Type := mkPivot {
  index : list Z;
  columns : list Z;
  values : list (list Q)
}.

Fixpoint insert_unique (x : Z) (l : list Z) : list Z :=
  match l with
  | [] => [x]
  | y :: l' =>
      if x <? y then x :: y :: l'
      else if x =? y then y :: l'
      else y :: insert_unique x l'
  end.

(** The labels of a pivoted axis. *)
Definition sorted_unique (l : list Z) : list Z :=
  fold_right insert_unique [] l.

Definition same_cell (a b : Ratings.row) : bool :=
  (Ratings.movie_id a =? Ratings.movie_id b)
  && (Ratings.user_id a =? Ratings.user_id b).

(** Two ratings of one movie by one user: [pivot] cannot reshape. *)
Fixpoint has_duplicate_cells (l : list Ratings.row) : bool :=
  match l with
  | [] => false
  | r :: l' => existsb (same_cell r) l' || has_duplicate_cells l'
  end.

(** The rating in a cell, [0] where [fillna(0)] filled it. *)
Definition cell (ratings_df : list Ratings.row) (m u : Z) : Q :=
  match find (fun r => (Ratings.movie_id r =? m) && (Ratings.user_id r =? u))
             ratings_df with
  | Some r => inject_Z (Ratings.rating r)
  | None => 0%Q
  end.

(** [ratings_df.pivot(index='movie_id', columns='user_id',
    values='rating').fillna(0)]. *)
Definition pivot_fillna (ratings_df : list Ratings.row) : result PivotTable :=
  if has_duplicate_cells ratings_df then Raise ValueError
  else
    let index := sorted_unique (map Ratings.movie_id ratings_df) in
    let columns := sorted_unique (map Ratings.user_id ratings_df) in
    Ok (mkPivot index columns
          (map (fun m => map (fun u => cell ratings_df m u) columns) index)).

Fixpoint position (x : Z) (l : list Z) : option nat :=
  match l with
  | [] => None
  | y :: l' => if x =? y then Some O else option_map S (position x l')
  end.

(** [df.loc[:, user_id]]: the column of that label, [KeyError] without it. *)
Definition loc_column (df : PivotTable) (u : Z) : result (list Q) :=
  match position u (columns df) with
  | None => Raise KeyError
  | Some j => Ok (map (fun row => nth j row 0%Q) (values df))
  end.

(** [pd.Series(data, index=index)]. *)
Definition new_series {L V : Type} (data : list V) (index : list L)
  : result (Series L V) :=
  if Nat.eqb (length data) (length index) then Ok (combine index data)
  else Raise ValueError.

(** [Series.unique()]: the distinct values in order of first appearance. *)
Fixpoint unique (l : list Z) : list Z :=
  match l with
  | [] => []
  | x :: l' => x :: filter (fun y => negb (x =? y)) (unique l')
  end.

(** [Series.drop(labels, errors='ignore')]. *)
Definition drop (labels : list Z) (s : Series Z Q) : Series Z Q :=
  filter (fun e => negb (Z_in (fst e) labels)) s.

(** [Series.head(n)], which is [iloc[:n]]. *)
Definition head {A : Type} (n : Z) (l : list A) : list A := py_slice 0 n l.

(** ** The numerical routines of scikit-learn and pandas

    The factorisation and the cosine similarities are float64 linear
    algebra; [sort_values] runs an unstable quicksort, so the order it gives
    to equal scores is not fixed.  The recommender is stated over any
    routines with these shapes and this sorting contract. *)
Class Numerics : Type := {
  (** [TruncatedSVD(n_components=12, random_state=42).fit_transform]; it
      raises on a matrix too small for 12 components. *)
  fit_transform : list (list Q) -> result (list (list Q));
  fit_transform_rows :
    forall X M, fit_transform X = Ok M -> length M = length X;
  (** [cosine_similarity(X, Y)]: one row per row of [X], one entry per row
      of [Y]. *)
  cosine_similarity : list (list Q) -> list (list Q) -> list (list Q);
  cosine_similarity_rows :
    forall X Y, length (cosine_similarity X Y) = length X;
  cosine_similarity_cols :
    forall X Y, Forall (fun r => length r = length Y) (cosine_similarity X Y);
  (** [Series.sort_values(ascending=False)]. *)
  sort_values_descending : Series Z Q -> Series Z Q;
  sort_values_perm :
    forall s, Permutation (sort_values_descending s) s;
  sort_values_sorted :
    forall s, StronglySorted score_ge (sort_values_descending s)
}.

(** ** recommender.get_collaborative_recommendations *)

(** [rated_movies]: the movies the user rated. *)
Definition rated_movies (user_id : Z) (ratings_df : list Ratings.row) : list Z :=
  unique (map Ratings.movie_id
            (filter (fun r => Ratings.user_id r =? user_id) ratings_df)).

Definition get_collaborative_recommendations `{Numerics} (user_id : Z)
    (ratings_df : list Ratings.row) (movies_df : list Movies.row)
    (num_recommendations : Z) : result (list string) :=
  movie_user_matrix <- pivot_fillna ratings_df ;;
  matrix <- fit_transform (values movie_user_matrix) ;;
  let corr_matrix := cosine_similarity matrix matrix in
  user_ratings <- loc_column movie_user_matrix user_id ;;
  let user_movie_corr := cosine_similarity [user_ratings] corr_matrix in
  recommendations <-
    new_series (concat user_movie_corr) (index movie_user_matrix) ;;
  let recommendations := sort_values_descending recommendations in
  let recommendations := drop (rated_movies user_id ratings_df) recommendations in
  let top_recommendations :=
    map fst (head num_recommendations recommendations) in
  let rec_movies :=
    filter (fun m => Z_in (Movies.movie_id m) top_recommendations) movies_df in
  Ok (map Movies.title rec_movies).

(** The intermediate values of the function, named for the statements
    below: the sorted score series, and the labels kept by [head]. *)
Definition ranked_scores `{Numerics} (user_id : Z)
    (ratings_df : list Ratings.row) : result (Series Z Q) :=
  movie_user_matrix <- pivot_fillna ratings_df ;;
  matrix <- fit_transform (values movie_user_matrix) ;;
  user_ratings <- loc_column movie_user_matrix user_id ;;
  recommendations <-
    new_series
      (concat (cosine_similarity [user_ratings]
                 (cosine_similarity matrix matrix)))
      (index movie_user_matrix) ;;
  Ok (sort_values_descending recommendations).

Definition top_recommendations `{Numerics} (user_id : Z)
    (ratings_df : list Ratings.row) (num_recommendations : Z)
  : result (list Z) :=
  recommendations <- ranked_scores user_id ratings_df ;;
  Ok (map fst (head num_recommendations
                 (drop (rated_movies user_id ratings_df) recommendations))).

(** The ratings can be pivoted and factorised: no user rated a movie twice
    and the matrix is large enough for the 12 components. *)
Definition factorisable `{Numerics} (ratings_df : list Ratings.row) : Prop :=
  exists movie_user_matrix matrix,
    pivot_fillna ratings_df = Ok movie_user_matrix
    /\ fit_transform (values movie_user_matrix) = Ok matrix.

(** The movies a user can be offered: rated by somebody, not by the user. *)
Definition eligible (user_id : Z) (ratings_df : list Ratings.row) (m : Z) : bool :=
  Z_in m (map Ratings.movie_id ratings_df)
  && negb (Z_in m (rated_movies user_id ratings_df)).

(** The list the specification describes for [recommendForUser]: the top
    labels in rank order, each resolved to its title through the catalog. *)
Definition title_of (movies_df : list Movies.row) (id : Z) : list string :=
  match find (fun m => Movies.movie_id m =? id) movies_df with
  | Some m => [Movies.title m]
  | None => []
  end.

Definition spec_recommendForUser `{Numerics} (user_id : Z)
    (ratings_df : list Ratings.row) (movies_df : list Movies.row)
    (k : Z) : result (list string) :=
  top <- top_recommendations user_id ratings_df k ;;
  Ok (flat_map (title_of movies_df) top).

(** ** app.main, the hybrid branch *)

Module Float.
Import PrimFloat SpecFloat FloatOps.

(** The conversion of the integer operand of [int * float]; Python
    refuses an integer beyond the float range. *)
Definition of_int (k : Z) : result float :=
  match binary_normalize prec emax k 0 false with
  | S754_infinity _ => Raise OverflowError
  | sf => Ok (SF2Prim sf)
  end.

(** [int(x)]: truncation toward zero; [nan] and the infinities raise. *)
Definition to_int (x : float) : result Z :=
  match Prim2SF x with
  | S754_zero _ => Ok 0
  | S754_finite s m e =>
      let magnitude :=
        if 0 <=? e then Z.shiftl (Z.pos m) e else Z.shiftr (Z.pos m) (- e) in
      Ok (if s then - magnitude else magnitude)
  | S754_infinity _ => Raise OverflowError
  | S754_nan => Raise ValueError
  end.

(** [round(x)]: the nearest integer, a tie going to the even one. *)
Definition round (x : float) : result Z :=
  match Prim2SF x with
  | S754_zero _ => Ok 0
  | S754_finite s m e =>
      let magnitude :=
        if 0 <=? e then Z.shiftl (Z.pos m) e
        else
          let q := Z.shiftr (Z.pos m) (- e) in
          let r := Z.land (Z.pos m) (Z.ones (- e)) in
          let half := Z.shiftl 1 (- e - 1) in
          if r <? half then q
          else if half <? r then q + 1
          else if Z.even q then q else q + 1 in
      Ok (if s then - magnitude else magnitude)
  | S754_infinity _ => Raise OverflowError
  | S754_nan => Raise ValueError
  end.
End Float.

(** [collab_count = int(num_recommendations * (1 - hybrid_weight))]. *)
Definition collab_count (num_recommendations : Z) (hybrid_weight : float)
  : result Z :=
  n <- Float.of_int num_recommendations ;;
  Float.to_int (PrimFloat.mul n (PrimFloat.sub PrimFloat.one hybrid_weight)).

(** The loop [for rec in content_recs[:content_count]: if rec not in
    hybrid_recs: hybrid_recs.append(rec)]. *)
Definition append_unseen (hybrid_recs content : list string) : list string :=
  fold_left (fun acc rec => if str_in rec acc then acc else acc ++ [rec])
            content hybrid_recs.

(** The merge of the two lists, lines 381 to 389 of [app.py]. *)
Definition hybrid_merge (collab_recs content_recs : list string)
    (num_recommendations : Z) (hybrid_weight : float) : result (list string) :=
  collab_count <- collab_count num_recommendations hybrid_weight ;;
  let content_count := num_recommendations - collab_count in
  let hybrid_recs := py_slice 0 collab_count collab_recs in
  Ok (append_unseen hybrid_recs (py_slice 0 content_count content_recs)).

(** The split as the specification words it:
    [collaborative_count = round(k * (1 - weight))], and the same merge. *)
Definition spec_collaborative_count (k : Z) (weight : float) : result Z :=
  n <- Float.of_int k ;;
  Float.round (PrimFloat.mul n (PrimFloat.sub PrimFloat.one weight)).

Definition spec_hybrid_merge (collab_recs content_recs : list string)
    (k : Z) (weight : float) : result (list string) :=
  collaborative_count <- spec_collaborative_count k weight ;;
  let content_count := k - collaborative_count in
  Ok (append_unseen (py_slice 0 collaborative_count collab_recs)
        (py_slice 0 content_count content_recs)).

(** The distinct titles of a list, each at its first occurrence. *)
Fixpoint first_occurrences (l : list string) : list string :=
  match l with
  | [] => []
  | x :: l' => x :: filter (fun y => negb (String.eqb x y)) (first_occurrences l')
  end.

(** The positions of the two sliders of the page. *)
Definition slider_counts : list Z := map Z.of_nat (seq 3 13).
Definition slider_weights : list float :=
  [0.0; 0.1; 0.2; 0.3; 0.4; 0.5; 0.6; 0.7; 0.8; 0.9; 1.0]%float.

(** The hybrid branch: both recommenders are asked for
    [num_recommendations] titles, then merged. *)
Definition recommend_hybrid `{Numerics} (user_id : Z) (selected_movie : string)
    (ratings_df : list Ratings.row) (movies_df : list Movies.row)
    (similarity_matrix : list (list Q)) (indices : Series string nat)
    (num_recommendations : Z) (hybrid_weight : float) : result (list string) :=
  collab_recs <-
    get_collaborative_recommendations user_id ratings_df movies_df
      num_recommendations ;;
  content_recs <-
    get_content_based_recommendations selected_movie movies_df
      similarity_matrix indices num_recommendations ;;
  hybrid_merge collab_recs content_recs num_recommendations hybrid_weight.

(** ** data_loader.load_data: the content similarity matrix *)

(** [movies_df['genres']]: the names of the genre columns that hold 1,
    joined by blanks. *)
Definition genres (m : Movies.row) : string :=
  String.concat " "
    (map fst (filter snd (combine genre_cols (Movies.flags m)))).

(** The [norm] parameter of [TfidfVectorizer]. *)
Inductive norm_kind : Set := L1 | L2 | NoNorm.

Module Tfidf.
Local Open Scope R_scope.

Definition dot (x y : list R) : R :=
  fold_right Rplus 0 (map (fun p => fst p * snd p) (combine x y)).

(** scikit-learn divides by 1 where a norm is 0. *)
Definition nonzero (x : R) : R := if Req_dec_T x 0 then 1 else x.

Definition l2_norm (v : list R) : R := R_sqrt.sqrt (dot v v).
Definition l1_norm (v : list R) : R := fold_right Rplus 0 (map Rabs v).

Definition normalize (norm : norm_kind) (v : list R) : list R :=
  match norm with
  | L2 => map (fun x => x / nonzero (l2_norm v)) v
  | L1 => map (fun x => x / nonzero (l1_norm v)) v
  | NoNorm => v
  end.

(** The terms of the corpus; their order (alphabetical in scikit-learn)
    does not matter to a dot product. *)
Definition vocabulary (docs : list (list string)) : list string :=
  first_occurrences (concat docs).

Definition tf (d : list string) (t : string) : R :=
  INR (count_occ string_dec d t).

Definition df (docs : list (list string)) (t : string) : nat :=
  length (filter (str_in t) docs).

(** The smoothed inverse document frequency,
    [ln((1 + n) / (1 + df)) + 1]. *)
Definition idf (docs : list (list string)) (t : string) : R :=
  ln ((1 + INR (length docs)) / (1 + INR (df docs t))) + 1.

(** The weights of a document before normalisation. *)
Definition weights (docs : list (list string)) (d : list string) : list R :=
  map (fun t => tf d t * idf docs t) (vocabulary docs).

Definition no_token (d : list string) : bool :=
  match d with
  | [] => true
  | _ :: _ => false
  end.

(** The weights of every document of a corpus. *)
Definition corpus_weights (docs : list (list string)) : list (list R) :=
  map (fun d => weights docs d) docs.

(** [TfidfVectorizer(norm=norm).fit_transform(raw_documents)]; [analyzer]
    is the tokenisation (lower case, tokens of two letters or more,
    English stop words left out).  A corpus without a term raises. *)
Definition fit_transform (analyzer : string -> list string)
    (norm : norm_kind) (raw_documents : list string)
  : result (list (list R)) :=
  let docs := map analyzer raw_documents in
  match vocabulary docs with
  | [] => Raise ValueError
  | _ => Ok (map (normalize norm) (corpus_weights docs))
  end.

(** [linear_kernel(X, Y)]: the dot products of the rows. *)
Definition linear_kernel (X Y : list (list R)) : list (list R) :=
  map (fun x => map (fun y => dot x y) Y) X.

(** [cosine_similarity(X, X)]. *)
Definition cosine (x y : list R) : R :=
  dot x y / (nonzero (l2_norm x) * nonzero (l2_norm y)).

Definition cosine_similarity_matrix (X : list (list R)) : list (list R) :=
  map (fun x => map (fun y => cosine x y) X) X.
End Tfidf.

(** [TfidfVectorizer(stop_words='english')] leaves [norm] at its default,
    ['l2'].  The entries are computed over the reals; the program computes
    them in float64, where a self-similarity may read 1.0000000000000002:
    what is stated of the program below is what rounding keeps (which
    normalisation is applied, symmetry, signs, equal rows for equal
    genres), not a bound or an equality at 1. *)
Definition load_data_similarity_matrix (analyzer : string -> list string)
    (movies_df : list Movies.row) : result (list (list R)) :=
  tfidf_matrix <- Tfidf.fit_transform analyzer L2 (map genres movies_df) ;;
  Ok (Tfidf.linear_kernel tfidf_matrix tfidf_matrix).

(** The matrix as the specification words it: the linear kernel of TF-IDF
    vectors that the vectorizer did not normalise. *)
Definition spec_similarity_matrix (analyzer : string -> list string)
    (movies_df : list Movies.row) : result (list (list R)) :=
  tfidf_matrix <- Tfidf.fit_transform analyzer NoNorm (map genres movies_df) ;;
  Ok (Tfidf.linear_kernel tfidf_matrix tfidf_matrix).

(** The analyzer on genre strings: lower case, then the tokens of the
    pattern [\b\w\w+\b], runs of two or more letters, digits or underscores.
    No token of a genre name is an English stop word. *)
Definition is_word_char (c : ascii) : bool :=
  let n := nat_of_ascii c in
  ((48 <=? n) && (n <=? 57) || (65 <=? n) && (n <=? 90)
   || (97 <=? n) && (n <=? 122) || (n =? 95))%nat.

Definition lower (c : ascii) : ascii :=
  let n := nat_of_ascii c in
  if ((65 <=? n) && (n <=? 90))%nat then ascii_of_nat (n + 32) else c.

Definition close_token (current : string) : list string :=
  if (2 <=? String.length current)%nat then [current] else [].

Fixpoint tokens_from (current : string) (s : string) : list string :=
  match s with
  | EmptyString => close_token current
  | String c s' =>
      if is_word_char c
      then tokens_from (current ++ String (lower c) "") s'
      else close_token current ++ tokens_from "" s'
  end.

Definition words (s : string) : list string := tokens_from "" s.

(** ** Catalogs and matrices used in the examples *)

(** The indicator columns of a movie with the given genres. *)
Definition genre_flags (names : list string) : list bool :=
  map (fun g => str_in g names) genre_cols.

Definition movie (id : Z) (title : string) (names : list string) : Movies.row :=
  Movies.mk id title (genre_flags names).

(** The three movies of the scenario of the specification. *)
Definition catalog_abc : list Movies.row :=
  [movie 1 "Alpha" ["action"]; movie 2 "Beta" ["action"; "comedy"];
   movie 3 "Gamma" ["comedy"]].

Definition similarity_abc : list (list Q) :=
  [[1; 1 # 2; 0]; [1 # 2; 1; 1 # 2]; [0; 1 # 2; 1]]%Q.

(** Two movies with the same genres and a third one: the two dramas are as
    similar to each other as each is to itself. *)
Definition catalog_dramas : list Movies.row :=
  [movie 1 "First Drama" ["drama"]; movie 2 "Second Drama" ["drama"];
   movie 3 "A Comedy" ["comedy"]].

Definition similarity_dramas : list (list Q) :=
  [[1; 1; 0]; [1; 1; 0]; [0; 0; 1]]%Q.

(** A catalog in which one title names two movies, as [u.item] has after
    the year is cut off the title. *)
Definition catalog_twins : list Movies.row :=
  [movie 246 "Chasing Amy" ["drama"; "romance"];
   movie 247 "Turbo: A Power Rangers Movie" ["action"; "adventure"; "childrens"];
   movie 268 "Chasing Amy" ["drama"; "romance"]].

Definition similarity_twins : list (list Q) :=
  [[1; 0; 1]; [0; 1; 0]; [1; 0; 1]]%Q.

(** A rating store of 13 users and 14 movies.  Every user rates every
    movie, but user 1 leaves movies 13 and 14 unrated. *)
Definition ratings_grid : list Ratings.row :=
  flat_map
    (fun u =>
       flat_map
         (fun m =>
            if (u =? 1) && (12 <? m) then []
            else [Ratings.mk u m (1 + (u * m) mod 5) 0])
         (map Z.of_nat (seq 1 14)))
    (map Z.of_nat (seq 1 13)).

(** The sixteen movies "Movie 1" .. "Movie 16"; 15 and 16 have no rating
    in [ratings_grid]. *)
Definition grid_title (n : nat) : string :=
  "Movie " ++ (if (n <? 10)%nat then "" else "1")
  ++ String (Ascii.ascii_of_nat (48 + n mod 10)) "".

Definition grid_movie (n : nat) : Movies.row :=
  movie (Z.of_nat n) (grid_title n) ["drama"].

Definition catalog_grid : list Movies.row := map grid_movie (seq 1 16).

(** The same catalog with the rows of movies 13 and 14 exchanged. *)
Definition catalog_grid_swapped : list Movies.row :=
  map grid_movie (seq 1 12 ++ [14; 13; 15; 16])%nat.

(** The same catalog with movie 13 bearing the title of movie 1, as two
    releases of one name do after the year is cut off the title. *)
Definition catalog_grid_shared : list Movies.row :=
  map (fun n => if (n =? 13)%nat then movie 13 "Movie 1" ["drama"]
                else grid_movie n)
    (seq 1 16).

(** A similarity matrix for [catalog_grid] in which every movie is closer
    to itself than to any other. *)
Definition similarity_grid : list (list Q) :=
  map (fun i => map (fun j => if (i =? j)%nat then 1%Q else (1 # 2)%Q)
                 (seq 0 16))
      (seq 0 16).

(** Routines to evaluate the recommender with: no factorisation, dot
    products in place of the cosines, the stable sort. *)
Definition dot_Q (x y : list Q) : Q :=
  fold_right Qplus 0%Q (map (fun p => (fst p * snd p)%Q) (combine x y)).

Definition dot_products (X Y : list (list Q)) : list (list Q) :=
  map (fun x => map (fun y => Qred (dot_Q x y)) Y) X.

(** ** recommender.get_content_based_recommendations: the ranking *)

(** [a] is ranked before [b]: a larger score, or the same score at an earlier
    row. *)
Definition ranks_before (a b : nat * Q) : Prop :=
  (snd b < snd a)%Q \/ ((snd b == snd a)%Q /\ (fst a < fst b)%nat).

(** ** recommender.get_collaborative_recommendations: the cells of the pivot *)

(** The cell of the pivot table that a row of the rating store fills. *)
Definition cell_key (r : Ratings.row) : Z * Z :=
  (Ratings.movie_id r, Ratings.user_id r).

(** ** app.main: the lookups around the recommenders *)

(** [movies_df[movies_df['title'] == movie].iloc[0]]: the first row with
    that title, [IndexError] without one. *)
Definition movie_info (movies_df : list Movies.row) (movie : string)
  : result Movies.row :=
  getitem (filter (fun m => String.eqb (Movies.title m) movie) movies_df) 0.

(** [ratings_df['user_id'].value_counts()]: the number of rows of every
    user, the largest first. *)
Definition value_counts `{Numerics} (ratings_df : list Ratings.row)
  : Series Z Q :=
  let users := map Ratings.user_id ratings_df in
  sort_values_descending
    (map (fun u => (u, inject_Z (Z.of_nat (count_occ Z.eq_dec users u))))
       (unique users)).

(** The "Top Rated User" choice: [user_rating_counts.index[0]]. *)
Definition top_rated_user `{Numerics} (ratings_df : list Ratings.row)
  : result Z :=
  entry <- getitem (value_counts ratings_df) 0 ;;
  Ok (fst entry).

(** ** data_loader.load_data: the cleaning of the titles *)

(** [str.isspace] on the characters of a latin-1 string: the controls 9 to
    13 and 28 to 31, the blank, NEL and the no-break space. *)
Definition is_space (c : ascii) : bool :=
  let n := nat_of_ascii c in
  ((9 <=? n) && (n <=? 13) || (28 <=? n) && (n <=? 32)
   || (n =? 133) || (n =? 160))%nat.

Fixpoint lstrip (s : string) : string :=
  match s with
  | EmptyString => EmptyString
  | String c s' => if is_space c then lstrip s' else s
  end.

Fixpoint rstrip (s : string) : string :=
  match s with
  | EmptyString => EmptyString
  | String c s' =>
      match rstrip s' with
      | EmptyString => if is_space c then EmptyString else String c EmptyString
      | r => String c r
      end
  end.

(** [s.strip()]. *)
Definition strip (s : string) : string := rstrip (lstrip s).

(** [s.split(sep)[0]] for a separator that is not empty: the part of [s]
    before the first occurrence of [sep], all of [s] without one. *)
Fixpoint before (sep s : string) : string :=
  match s with
  | EmptyString => EmptyString
  | String c s' =>
      if String.prefix sep s then EmptyString else String c (before sep s')
  end.

(** [lambda x: x.split(' (')[0].strip()]. *)
Definition clean_title (x : string) : string := strip (before " (" x).

(** ** data_loader.get_movies_list *)

(** [sorted] on strings: Python compares them by code point. *)
Fixpoint insert_string (x : string) (l : list string) : list string :=
  match l with
  | [] => [x]
  | y :: l' => if String.leb x y then x :: y :: l' else y :: insert_string x l'
  end.

Definition sorted_strings (l : list string) : list string :=
  fold_right insert_string [] l.

(** [sorted(movies_df['title'].unique())]. *)
Definition get_movies_list (movies_df : list Movies.row) : list string :=
  sorted_strings (first_occurrences (map Movies.title movies_df)).

(** The orders of [sorted] on strings. *)
Definition string_le (a b : string) : Prop := String.leb a b = true.

Definition string_lt (a b : string) : Prop := String.ltb a b = true.

(* ================================================================== *)
(** * Part II: properties                                              *)
(* ================================================================== *)


(** ** Results *)

Lemma bind_Ok {A B : Type} (c : result A) (k : A -> result B) (b : B) :
  (x <- c ;; k x) = Ok b -> exists a, c = Ok a /\ k a = Ok b.
Proof.
  destruct c as [a | e]; simpl; intros E.
  - exists a. split; [reflexivity | exact E].
  - discriminate E.
Qed.

Lemma mapM_getitem {A : Type} (l : list A) (d : A) (positions : list nat) :
  Forall (fun i => (i < length l)%nat) positions ->
  mapM (getitem l) positions = Ok (map (fun i => nth i l d) positions).
Proof.
  induction 1 as [| i positions Hi _ IH]; simpl.
  - reflexivity.
  - unfold getitem at 1.
    destruct (nth_error l i) as [a |] eqn:E.
    + simpl. rewrite IH. simpl.
      rewrite (nth_error_nth _ _ d E). reflexivity.
    + apply nth_error_None in E. lia.
Qed.

(** ** Slices *)

Example slice_inner : py_slice 1 3 ["a"; "b"; "c"; "d"] = ["b"; "c"].
Proof. reflexivity. Qed.

Example slice_overlong : py_slice 1 9 ["a"; "b"; "c"] = ["b"; "c"].
Proof. reflexivity. Qed.

Example slice_negative_stop : py_slice 0 (-1) ["a"; "b"; "c"] = ["a"; "b"].
Proof. reflexivity. Qed.

Example slice_empty : py_slice 1 0 ["a"; "b"; "c"] = [].
Proof. reflexivity. Qed.

Lemma firstn_min {A : Type} (n : nat) (l : list A) :
  firstn (Nat.min n (length l)) l = firstn n l.
Proof.
  destruct (Nat.le_ge_cases n (length l)) as [H | H].
  - rewrite Nat.min_l by exact H. reflexivity.
  - rewrite Nat.min_r by exact H.
    rewrite firstn_all. symmetry. apply firstn_all2. exact H.
Qed.

(** [l[:n]] with [n] not negative is the prefix of [n] elements. *)
Lemma py_slice_prefix {A : Type} (n : Z) (l : list A) :
  0 <= n -> py_slice 0 n l = firstn (Z.to_nat n) l.
Proof.
  intros Hn. unfold py_slice, slice_bound.
  replace (0 <? 0) with false by reflexivity.
  destruct (n <? 0) eqn:E; [apply Z.ltb_lt in E; lia |].
  replace (Z.min 0 (Z.of_nat (length l))) with 0 by lia.
  simpl skipn. rewrite Z.sub_0_r.
  rewrite <- (firstn_min (Z.to_nat n) l).
  f_equal. lia.
Qed.

(** [l[1:k+1]] with [k] not negative drops the head and keeps [k]
    elements. *)
Lemma py_slice_tail {A : Type} (k : Z) (l : list A) :
  0 <= k -> py_slice 1 (k + 1) l = firstn (Z.to_nat k) (tl l).
Proof.
  intros Hk. unfold py_slice, slice_bound.
  replace (1 <? 0) with false by reflexivity.
  destruct (k + 1 <? 0) eqn:E; [apply Z.ltb_lt in E; lia |].
  destruct l as [| a l].
  - simpl. rewrite firstn_nil. destruct (Z.to_nat _); reflexivity.
  - replace (Z.min 1 (Z.of_nat (length (a :: l)))) with 1
      by (simpl length; lia).
    simpl skipn. simpl tl.
    rewrite <- (firstn_min (Z.to_nat k) l).
    f_equal. simpl length. lia.
Qed.

Lemma py_slice_parts {A : Type} (start stop : Z) (l : list A) :
  exists n m, py_slice start stop l = firstn n (skipn m l).
Proof. unfold py_slice. eauto. Qed.

Lemma In_firstn {A : Type} (n : nat) (l : list A) (x : A) :
  In x (firstn n l) -> In x l.
Proof.
  intros H. rewrite <- (firstn_skipn n l). apply in_or_app. left. exact H.
Qed.

Lemma In_skipn {A : Type} (n : nat) (l : list A) (x : A) :
  In x (skipn n l) -> In x l.
Proof.
  intros H. rewrite <- (firstn_skipn n l). apply in_or_app. right. exact H.
Qed.

Lemma py_slice_In {A : Type} (start stop : Z) (l : list A) (x : A) :
  In x (py_slice start stop l) -> In x l.
Proof.
  destruct (py_slice_parts start stop l) as (n & m & ->).
  intros H. apply In_firstn in H. apply In_skipn in H. exact H.
Qed.

Lemma NoDup_firstn {A : Type} (n : nat) (l : list A) :
  NoDup l -> NoDup (firstn n l).
Proof.
  intros H. rewrite <- (firstn_skipn n l) in H.
  apply NoDup_app_remove_r in H. exact H.
Qed.

Lemma NoDup_skipn {A : Type} (n : nat) (l : list A) :
  NoDup l -> NoDup (skipn n l).
Proof.
  intros H. rewrite <- (firstn_skipn n l) in H.
  apply NoDup_app_remove_l in H. exact H.
Qed.

Lemma py_slice_map {A B : Type} (f : A -> B) (start stop : Z) (l : list A) :
  map f (py_slice start stop l) = py_slice start stop (map f l).
Proof.
  unfold py_slice. rewrite length_map, <- firstn_map, <- skipn_map.
  reflexivity.
Qed.

Lemma py_slice_NoDup {A : Type} (start stop : Z) (l : list A) :
  NoDup l -> NoDup (py_slice start stop l).
Proof.
  destruct (py_slice_parts start stop l) as (n & m & ->).
  intros H. apply NoDup_firstn, NoDup_skipn, H.
Qed.

(** ** The stable descending sort *)

Example sorted_desc_is_stable :
  sorted_desc [("a", 1 # 2); ("b", 1); ("c", 1 # 2); ("d", 1)]%Q
  = [("b", 1); ("d", 1); ("a", 1 # 2); ("c", 1 # 2)]%Q.
Proof. reflexivity. Qed.

Lemma insert_desc_perm {A : Type} (x : A * Q) (l : list (A * Q)) :
  Permutation (insert_desc x l) (x :: l).
Proof.
  induction l as [| y l IH]; simpl.
  - apply Permutation_refl.
  - destruct (Qle_bool (snd y) (snd x)).
    + apply Permutation_refl.
    + eapply Permutation_trans; [apply perm_skip, IH | apply perm_swap].
Qed.

Lemma sorted_desc_perm {A : Type} (l : list (A * Q)) :
  Permutation (sorted_desc l) l.
Proof.
  induction l as [| x l IH]; simpl.
  - apply Permutation_refl.
  - eapply Permutation_trans; [apply insert_desc_perm | apply perm_skip, IH].
Qed.

Lemma insert_desc_sorted {A : Type} (x : A * Q) (l : list (A * Q)) :
  Sorted score_ge l -> Sorted score_ge (insert_desc x l).
Proof.
  induction 1 as [| y l Hl IH Hy]; simpl.
  - repeat constructor.
  - destruct (Qle_bool (snd y) (snd x)) eqn:E.
    + constructor; [constructor; assumption |].
      constructor. apply Qle_bool_iff in E. exact E.
    + constructor; [exact IH |].
      assert (Hxy : (snd x <= snd y)%Q).
      { destruct (Qlt_le_dec (snd x) (snd y)) as [Hlt | Hle].
        - apply Qlt_le_weak, Hlt.
        - apply Qle_bool_iff in Hle. congruence. }
      destruct l as [| z l]; simpl.
      * constructor. exact Hxy.
      * destruct (Qle_bool (snd z) (snd x)); constructor.
        -- exact Hxy.
        -- inversion Hy; assumption.
Qed.

Lemma sorted_desc_sorted {A : Type} (l : list (A * Q)) :
  StronglySorted score_ge (sorted_desc l).
Proof.
  apply Sorted_StronglySorted.
  - intros a b c Hab Hbc. unfold score_ge in *.
    eapply Qle_trans; eassumption.
  - induction l as [| x l IH]; simpl.
    + constructor.
    + apply insert_desc_sorted, IH.
Qed.

Lemma map_fst_enumerate {A : Type} (l : list A) :
  map fst (enumerate l) = seq 0 (length l).
Proof.
  unfold enumerate. generalize 0%nat.
  induction l as [| a l IH]; intros n; simpl.
  - reflexivity.
  - rewrite IH. reflexivity.
Qed.


(** ** The reverse map of titles to rows *)

Example drop_duplicates_by_value :
  drop_duplicates [("a", 7%nat); ("b", 7%nat); ("a", 8%nat)]
  = [("a", 7%nat); ("a", 8%nat)].
Proof. reflexivity. Qed.

Lemma drop_duplicates_from_distinct {L : Type} (seen : list nat)
    (s : Series L nat) :
  NoDup (map snd s) ->
  (forall v, In v (map snd s) -> ~ In v seen) ->
  drop_duplicates_from seen s = s.
Proof.
  revert seen. induction s as [| [l v] s IH]; intros seen Hnd Hseen; simpl.
  - reflexivity.
  - simpl in Hnd. apply NoDup_cons_iff in Hnd. destruct Hnd as [Hv Hnd].
    destruct (existsb (Nat.eqb v) seen) eqn:E.
    + apply existsb_exists in E. destruct E as (w & Hw & Evw).
      apply Nat.eqb_eq in Evw. subst w.
      exfalso. apply (Hseen v); [left; reflexivity | exact Hw].
    + f_equal. apply IH; [exact Hnd |].
      intros w Hw [Ew | Hin].
      * subst w. apply Hv, Hw.
      * apply (Hseen w); [right; exact Hw | exact Hin].
Qed.

Lemma map_snd_combine_seq {A : Type} (l : list A) (start : nat) :
  map snd (combine l (seq start (length l))) = seq start (length l).
Proof.
  revert start. induction l as [| a l IH]; intros start; simpl.
  - reflexivity.
  - rewrite IH. reflexivity.
Qed.

(** The row positions are pairwise distinct, so [drop_duplicates] removes
    nothing: the index has one entry per row of the catalog. *)
Lemma load_data_indices_every_row (movies_df : list Movies.row) :
  load_data_indices movies_df
  = combine (map Movies.title movies_df) (seq 0 (length movies_df)).
Proof.
  unfold load_data_indices, drop_duplicates.
  apply drop_duplicates_from_distinct.
  - rewrite <- (length_map Movies.title movies_df), map_snd_combine_seq.
    apply seq_NoDup.
  - intros v _ [].
Qed.

Lemma filter_label_combine (t : string) (titles : list string) (start : nat) :
  length (filter (fun e : string * nat => String.eqb (fst e) t)
            (combine titles (seq start (length titles))))
  = count_occ string_dec titles t.
Proof.
  revert start. induction titles as [| a titles IH]; intros start; simpl.
  - reflexivity.
  - destruct (String.eqb a t) eqn:E; destruct (string_dec a t) as [Ea | Ea];
      simpl; rewrite IH; try reflexivity.
    + apply String.eqb_eq in E. contradiction.
    + subst a. rewrite String.eqb_refl in E. discriminate.
Qed.

(** Every row of the catalog with title [t] has its own entry under [t]. *)
Lemma load_data_indices_entries (movies_df : list Movies.row) (t : string) :
  length (filter (fun e => String.eqb (fst e) t) (load_data_indices movies_df))
  = count_occ string_dec (map Movies.title movies_df) t.
Proof.
  rewrite load_data_indices_every_row.
  rewrite <- (length_map Movies.title movies_df).
  apply filter_label_combine.
Qed.

(** C4: a title that names two movies keeps both of its entries in the
    reverse index ([drop_duplicates] compares the row positions, which never
    repeat), the lookup of that title yields two row positions, and the
    content-based recommender raises on it. *)
Theorem shared_title_keeps_both_entries :
  load_data_indices catalog_twins
  = [("Chasing Amy", 0%nat); ("Turbo: A Power Rangers Movie", 1%nat);
     ("Chasing Amy", 2%nat)]
  /\ series_getitem "Chasing Amy" (load_data_indices catalog_twins)
     = Ok (SubSeries [0%nat; 2%nat])
  /\ get_content_based_recommendations "Chasing Amy" catalog_twins
       similarity_twins (load_data_indices catalog_twins) 5
     = Raise ValueError.
Proof. repeat split; reflexivity. Qed.

(** ** The content-based recommender *)

Lemma series_contains_false (t : string) (s : Series string nat) :
  ~ In t (map fst s) -> series_contains t s = false.
Proof.
  intros H. unfold series_contains.
  destruct (existsb _ s) eqn:E; [| reflexivity].
  apply existsb_exists in E. destruct E as (e & He & Et).
  apply String.eqb_eq in Et. subst t.
  exfalso. apply H, in_map, He.
Qed.

(** C8: a title that is not a label of the index gets the empty list,
    whatever the number of recommendations asked for, and nothing is
    raised. *)
Theorem unknown_title_gets_empty_list (title : string)
    (movies_df : list Movies.row) (similarity_matrix : list (list Q))
    (indices : Series string nat) (num_recommendations : Z) :
  ~ In title (map fst indices) ->
  get_content_based_recommendations title movies_df similarity_matrix indices
    num_recommendations = Ok [].
Proof.
  intros H. unfold get_content_based_recommendations.
  rewrite (series_contains_false _ _ H). reflexivity.
Qed.

Lemma unknown_title_gets_empty_list_witness :
  ~ In "Nonexistent" (map fst (load_data_indices catalog_abc))
  /\ get_content_based_recommendations "Nonexistent" catalog_abc
       similarity_abc (load_data_indices catalog_abc) 5 = Ok [].
Proof.
  assert (H : ~ In "Nonexistent" (map fst (load_data_indices catalog_abc))).
  { simpl. intros [E | [E | [E | []]]]; discriminate E. }
  split; [exact H |].
  apply (unknown_title_gets_empty_list "Nonexistent" catalog_abc
           similarity_abc (load_data_indices catalog_abc) 5 H).
Defined.

Example similar_to_alpha :
  get_content_based_recommendations "Alpha" catalog_abc similarity_abc
    (load_data_indices catalog_abc) 1 = Ok ["Beta"].
Proof. reflexivity. Qed.

(** C5: the slice [[1:k+1]] drops whatever the stable sort ranks first.  When
    an earlier row ties with the query movie on its own score, that row is
    dropped and the query title is returned. *)
Theorem tied_query_title_is_returned :
  get_content_based_recommendations "Second Drama" catalog_dramas
    similarity_dramas (load_data_indices catalog_dramas) 2
  = Ok ["Second Drama"; "A Comedy"]
  /\ In "Second Drama" (map fst (load_data_indices catalog_dramas)).
Proof. split; [reflexivity | simpl; tauto]. Qed.

(** The positions of a similarity row in the order [sorted] gives them. *)
Lemma ranked_positions_perm (row : list Q) :
  Permutation (map fst (sorted_desc (enumerate row))) (seq 0 (length row)).
Proof.
  rewrite <- map_fst_enumerate.
  apply Permutation_map, sorted_desc_perm.
Qed.

Lemma In_tl {A : Type} (l : list A) (x : A) : In x (tl l) -> In x l.
Proof. destruct l; simpl; auto. Qed.

Lemma NoDup_tl {A : Type} (l : list A) : NoDup l -> NoDup (tl l).
Proof. destruct l; simpl; [auto | intros H; inversion H; assumption]. Qed.

Lemma series_getitem_scalar_contains (t : string) (s : Series string nat)
    (i : nat) :
  series_getitem t s = Ok (Scalar i) -> series_contains t s = true.
Proof.
  unfold series_getitem, series_contains. intros H.
  destruct (filter (fun e => String.eqb (fst e) t) s) as [| e es] eqn:E.
  - discriminate H.
  - assert (He : In e (filter (fun e => String.eqb (fst e) t) s))
      by (rewrite E; left; reflexivity).
    apply filter_In in He. apply existsb_exists. exists e. exact He.
Qed.

(** What the recommender returns for a title with a single entry in the
    index: the titles at the ranked positions, the first-ranked left out,
    cut after [num_recommendations]. *)
Lemma content_based_result (title : string) (movies_df : list Movies.row)
    (similarity_matrix : list (list Q)) (indices : Series string nat)
    (num_recommendations : Z) (i : nat) (row : list Q) :
  series_getitem title indices = Ok (Scalar i) ->
  nth_error similarity_matrix i = Some row ->
  length row = length movies_df ->
  0 <= num_recommendations ->
  get_content_based_recommendations title movies_df similarity_matrix indices
    num_recommendations
  = Ok (map (fun j => nth j (map Movies.title movies_df) "")
          (firstn (Z.to_nat num_recommendations)
             (tl (map fst (sorted_desc (enumerate row)))))).
Proof.
  intros Hidx Hrow Hlen Hk.
  unfold get_content_based_recommendations.
  rewrite (series_getitem_scalar_contains _ _ _ Hidx). simpl negb. cbv iota.
  rewrite Hidx. simpl bind. unfold getitem at 1. rewrite Hrow. simpl bind.
  rewrite py_slice_map, py_slice_tail by exact Hk.
  apply mapM_getitem.
  apply Forall_forall. intros j Hj.
  apply In_firstn, In_tl in Hj.
  apply (Permutation_in _ (ranked_positions_perm row)) in Hj.
  apply in_seq in Hj. rewrite length_map, <- Hlen. lia.
Qed.

Lemma length_tl {A : Type} (l : list A) : length (tl l) = (length l - 1)%nat.
Proof. destruct l; simpl; lia. Qed.

Lemma enumerate_In {A : Type} (l : list A) (j : nat) (a : A) :
  In (j, a) (enumerate l) <-> nth_error l j = Some a.
Proof.
  unfold enumerate.
  assert (H : forall start,
             In (j, a) (combine (seq start (length l)) l)
             <-> (start <= j)%nat /\ nth_error l (j - start) = Some a).
  { induction l as [| b l IH]; intros start; simpl.
    - split; [contradiction |]. intros [_ H].
      destruct (j - start)%nat; discriminate H.
    - rewrite IH. split.
      + intros [E | [Hle Hnth]].
        * injection E as -> ->. rewrite Nat.sub_diag. auto.
        * split; [lia |].
          replace (j - start)%nat with (S (j - S start)) by lia. exact Hnth.
      + intros [Hle Hnth].
        destruct (j - start)%nat as [| n] eqn:E.
        * left. injection Hnth as ->. f_equal. lia.
        * right. split; [lia |].
          replace (j - S start)%nat with n by lia. exact Hnth. }
  rewrite H, Nat.sub_0_r. split; [tauto | split; [lia | assumption]].
Qed.

(** A row whose own score is strictly above all others is ranked first. *)
Lemma strictly_best_is_first (row : list Q) (i : nat) (s : Q) :
  nth_error row i = Some s ->
  (forall j s', nth_error row j = Some s' -> j <> i -> (s' < s)%Q) ->
  exists rest, sorted_desc (enumerate row) = (i, s) :: rest.
Proof.
  intros Hi Hbest.
  pose proof (sorted_desc_perm (enumerate row)) as Hperm.
  pose proof (sorted_desc_sorted (enumerate row)) as Hsorted.
  assert (Hin : In (i, s) (sorted_desc (enumerate row))).
  { apply (Permutation_in _ (Permutation_sym Hperm)), enumerate_In, Hi. }
  destruct (sorted_desc (enumerate row)) as [| [j s'] rest]; [contradiction |].
  exists rest.
  assert (Hj : nth_error row j = Some s').
  { apply enumerate_In, (Permutation_in _ Hperm). left. reflexivity. }
  destruct (Nat.eq_dec j i) as [-> | Hne].
  - rewrite Hi in Hj. injection Hj as <-. reflexivity.
  - exfalso. destruct Hin as [E | Hin]; [injection E as -> _; congruence |].
    inversion Hsorted as [| ? ? _ Hall]; subst.
    rewrite Forall_forall in Hall. specialize (Hall _ Hin).
    unfold score_ge in Hall. simpl in Hall.
    specialize (Hbest j s' Hj Hne).
    apply (Qlt_irrefl s'). eapply Qlt_le_trans; eassumption.
Qed.

(** The content-based half of the bound on the output: distinct row
    positions, no more than [k] of them and all rows but one when [k] allows
    it; the row left out is the query's own when its score is strictly the
    largest of its row. *)
Lemma content_based_bounds (title : string) (movies_df : list Movies.row)
    (similarity_matrix : list (list Q)) (indices : Series string nat)
    (num_recommendations : Z) (i : nat) (row : list Q) :
  series_getitem title indices = Ok (Scalar i) ->
  nth_error similarity_matrix i = Some row ->
  length row = length movies_df ->
  0 <= num_recommendations ->
  exists (positions : list nat),
    get_content_based_recommendations title movies_df similarity_matrix
      indices num_recommendations
    = Ok (map (fun j => nth j (map Movies.title movies_df) "") positions)
    /\ NoDup positions
    /\ Forall (fun j => (j < length movies_df)%nat) positions
    /\ length positions
       = Nat.min (Z.to_nat num_recommendations) (length movies_df - 1)
    /\ (forall s,
           nth_error row i = Some s ->
           (forall j s', nth_error row j = Some s' -> j <> i -> (s' < s)%Q) ->
           ~ In i positions).
Proof.
  intros Hidx Hrow Hlen Hk.
  exists (firstn (Z.to_nat num_recommendations)
            (tl (map fst (sorted_desc (enumerate row))))).
  split; [apply (content_based_result _ _ _ _ _ i row); assumption |].
  pose proof (ranked_positions_perm row) as Hperm.
  assert (Hnd : NoDup (map fst (sorted_desc (enumerate row))))
    by (apply (Permutation_NoDup (Permutation_sym Hperm)), seq_NoDup).
  split; [| split; [| split]].
  - apply NoDup_firstn, NoDup_tl, Hnd.
  - apply Forall_forall. intros j Hj.
    apply In_firstn, In_tl in Hj.
    apply (Permutation_in _ Hperm) in Hj. apply in_seq in Hj. lia.
  - rewrite length_firstn, length_tl.
    rewrite (Permutation_length Hperm), length_seq, Hlen. reflexivity.
  - intros s Hi Hbest Hin. apply In_firstn in Hin.
    destruct (strictly_best_is_first row i s Hi Hbest) as [rest Hrest].
    rewrite Hrest in Hnd, Hin. simpl in Hnd, Hin.
    apply NoDup_cons_iff in Hnd. tauto.
Qed.

(** When the query movie beats every other movie on its own row and no
    other movie bears its title, the output leaves the query title out. *)
Lemma strictly_best_query_is_left_out (title : string)
    (movies_df : list Movies.row) (similarity_matrix : list (list Q))
    (indices : Series string nat) (k : Z) (i : nat) (row : list Q) (s : Q) :
  series_getitem title indices = Ok (Scalar i) ->
  nth_error similarity_matrix i = Some row ->
  length row = length movies_df ->
  0 <= k ->
  nth_error (map Movies.title movies_df) i = Some title ->
  NoDup (map Movies.title movies_df) ->
  nth_error row i = Some s ->
  (forall j s', nth_error row j = Some s' -> j <> i -> (s' < s)%Q) ->
  exists out,
    get_content_based_recommendations title movies_df similarity_matrix
      indices k = Ok out
    /\ ~ In title out.
Proof.
  intros Hidx Hrow Hlen Hk Htitle Htitles Hi Hbest.
  eexists. split; [apply (content_based_result _ _ _ _ _ i row); assumption |].
  destruct (strictly_best_is_first row i s Hi Hbest) as [rest Hrest].
  pose proof (ranked_positions_perm row) as Hperm.
  rewrite Hrest in *. simpl map in *. simpl tl.
  assert (Hnd : NoDup (i :: map fst rest))
    by (apply (Permutation_NoDup (Permutation_sym Hperm)), seq_NoDup).
  apply NoDup_cons_iff in Hnd. destruct Hnd as [Hnotin _].
  intros Hin. apply in_map_iff in Hin. destruct Hin as (j & Ej & Hj).
  apply In_firstn in Hj.
  assert (Hjn : (j < length (map Movies.title movies_df))%nat).
  { assert (Hjs : In j (seq 0 (length row)))
      by (apply (Permutation_in _ Hperm); right; exact Hj).
    apply in_seq in Hjs. rewrite length_map, <- Hlen. lia. }
  assert (Hin : (i < length (map Movies.title movies_df))%nat)
    by (apply nth_error_Some; congruence).
  rewrite <- (nth_error_nth _ _ "" Htitle) in Ej.
  apply (proj1 (NoDup_nth _ "") Htitles j i Hjn Hin) in Ej.
  subst j. contradiction.
Qed.

(** ** Labels of the pivoted frame *)

Example pivot_of_the_scenario :
  pivot_fillna
    [Ratings.mk 1 1 5 0; Ratings.mk 1 2 3 0; Ratings.mk 2 2 4 0;
     Ratings.mk 2 3 5 0]
  = Ok (mkPivot [1; 2; 3] [1; 2] [[5; 0]; [3; 4]; [0; 5]]%Q).
Proof. reflexivity. Qed.

Example pivot_of_a_repeated_rating :
  pivot_fillna [Ratings.mk 1 1 5 0; Ratings.mk 1 1 3 0] = Raise ValueError.
Proof. reflexivity. Qed.

Lemma insert_unique_In (x y : Z) (l : list Z) :
  In y (insert_unique x l) <-> y = x \/ In y l.
Proof.
  induction l as [| z l IH]; simpl.
  - intuition congruence.
  - destruct (x <? z) eqn:Elt; [simpl; intuition congruence |].
    destruct (x =? z) eqn:Eeq.
    + apply Z.eqb_eq in Eeq. subst z. simpl. intuition congruence.
    + simpl. rewrite IH. intuition congruence.
Qed.

Lemma sorted_unique_In (y : Z) (l : list Z) :
  In y (sorted_unique l) <-> In y l.
Proof.
  induction l as [| x l IH]; simpl.
  - reflexivity.
  - rewrite insert_unique_In, IH. intuition congruence.
Qed.

Lemma insert_unique_sorted (x : Z) (l : list Z) :
  Sorted Z.lt l -> Sorted Z.lt (insert_unique x l).
Proof.
  induction 1 as [| z l Hl IH Hz]; simpl.
  - repeat constructor.
  - destruct (x <? z) eqn:Elt.
    + apply Z.ltb_lt in Elt. repeat constructor; assumption.
    + destruct (x =? z) eqn:Eeq; [constructor; assumption |].
      apply Z.ltb_ge in Elt. apply Z.eqb_neq in Eeq.
      constructor; [exact IH |].
      destruct l as [| w l]; simpl.
      * constructor. lia.
      * inversion Hz; subst.
        destruct (x <? w); [constructor; lia |].
        destruct (x =? w); constructor; assumption.
Qed.

Lemma sorted_unique_sorted (l : list Z) : Sorted Z.lt (sorted_unique l).
Proof.
  induction l as [| x l IH]; simpl.
  - constructor.
  - apply insert_unique_sorted, IH.
Qed.

Lemma sorted_unique_NoDup (l : list Z) : NoDup (sorted_unique l).
Proof.
  pose proof (Sorted_StronglySorted Z.lt_trans (sorted_unique_sorted l)) as H.
  induction H as [| a s Hs IH Ha].
  - constructor.
  - constructor; [| exact IH].
    intros Hin. rewrite Forall_forall in Ha.
    specialize (Ha a Hin). lia.
Qed.

Lemma position_None (x : Z) (l : list Z) :
  ~ In x l -> position x l = None.
Proof.
  induction l as [| y l IH]; simpl; intros H.
  - reflexivity.
  - destruct (x =? y) eqn:E.
    + apply Z.eqb_eq in E. exfalso. apply H. left. congruence.
    + rewrite IH; [reflexivity | tauto].
Qed.

Lemma position_Some (x : Z) (l : list Z) :
  In x l -> exists j, position x l = Some j.
Proof.
  induction l as [| y l IH]; simpl; intros H.
  - contradiction.
  - destruct (x =? y) eqn:E; [eauto |].
    apply Z.eqb_neq in E.
    destruct IH as [j Hj]; [destruct H; congruence |].
    rewrite Hj. simpl. eauto.
Qed.

Lemma Z_in_In (x : Z) (l : list Z) : Z_in x l = true <-> In x l.
Proof.
  unfold Z_in. rewrite existsb_exists. split.
  - intros (y & Hy & E). apply Z.eqb_eq in E. subst y. exact Hy.
  - intros H. exists x. split; [exact H | apply Z.eqb_refl].
Qed.

Lemma unique_In (x : Z) (l : list Z) : In x (unique l) <-> In x l.
Proof.
  induction l as [| a l IH]; simpl.
  - reflexivity.
  - rewrite filter_In, IH.
    destruct (Z.eq_dec a x) as [E | E].
    + intuition.
    + assert (negb (a =? x) = true)
        by (apply negb_true_iff, Z.eqb_neq; exact E).
      intuition.
Qed.

(** [rated_movies] holds the movies of the rows of that user. *)
Lemma rated_movies_In (u m : Z) (ratings_df : list Ratings.row) :
  In m (rated_movies u ratings_df)
  <-> exists r, In r ratings_df /\ Ratings.user_id r = u
                /\ Ratings.movie_id r = m.
Proof.
  unfold rated_movies. rewrite unique_In, in_map_iff. split.
  - intros (r & Em & Hr). apply filter_In in Hr. destruct Hr as [Hr Eu].
    apply Z.eqb_eq in Eu. eauto.
  - intros (r & Hr & Eu & Em). exists r. split; [exact Em |].
    apply filter_In. split; [exact Hr | apply Z.eqb_eq, Eu].
Qed.

Lemma NoDup_map_filter {A B : Type} (g : A -> B) (f : A -> bool) (l : list A) :
  NoDup (map g l) -> NoDup (map g (filter f l)).
Proof.
  induction l as [| a l IH]; simpl; intros H.
  - constructor.
  - apply NoDup_cons_iff in H. destruct H as [Ha H].
    destruct (f a); simpl; [| apply IH, H].
    constructor; [| apply IH, H].
    intros Hin. apply Ha. apply in_map_iff in Hin.
    destruct Hin as (b & E & Hb). apply filter_In in Hb.
    apply in_map_iff. exists b. tauto.
Qed.

Lemma Permutation_filter {A : Type} (f : A -> bool) (l l' : list A) :
  Permutation l l' -> Permutation (filter f l) (filter f l').
Proof.
  induction 1 as [| x l l' _ IH | x y l | l l' l'' _ IH1 _ IH2]; simpl.
  - constructor.
  - destruct (f x); [apply perm_skip |]; exact IH.
  - destruct (f x), (f y); try apply Permutation_refl. apply perm_swap.
  - eapply Permutation_trans; eassumption.
Qed.

Lemma map_fst_combine {A B : Type} (l : list A) (l' : list B) :
  length l' = length l -> map fst (combine l l') = l.
Proof.
  revert l'. induction l as [| a l IH]; intros [| b l'] H; simpl in *;
    try reflexivity; try discriminate.
  f_equal. apply IH. lia.
Qed.

(** A catalog with distinct movie ids has at most one row per kept label. *)
Lemma length_filter_isin (movies_df : list Movies.row) (top : list Z) :
  NoDup (map Movies.movie_id movies_df) ->
  (length (filter (fun m => Z_in (Movies.movie_id m) top) movies_df)
   <= length top)%nat.
Proof.
  intros H.
  rewrite <- (length_map Movies.movie_id (filter _ movies_df)).
  apply NoDup_incl_length.
  - apply NoDup_map_filter, H.
  - intros x Hx. apply in_map_iff in Hx. destruct Hx as (m & E & Hm).
    apply filter_In in Hm. subst x. apply Z_in_In. tauto.
Qed.

(** ** The collaborative recommender *)

Section Collaborative.
Context {N : Numerics}.
Variable user_id : Z.
Variable ratings_df : list Ratings.row.

(** The function factors through its two named intermediate values. *)
Lemma get_collaborative_recommendations_top (movies_df : list Movies.row)
    (k : Z) :
  get_collaborative_recommendations user_id ratings_df movies_df k
  = (top <- top_recommendations user_id ratings_df k ;;
     Ok (map Movies.title
           (filter (fun m => Z_in (Movies.movie_id m) top) movies_df))).
Proof.
  unfold get_collaborative_recommendations, top_recommendations,
    ranked_scores.
  destruct (pivot_fillna ratings_df) as [pv | e]; simpl; [| reflexivity].
  destruct (fit_transform (values pv)) as [X | e]; simpl; [| reflexivity].
  destruct (loc_column pv user_id) as [ur | e]; simpl; [| reflexivity].
  destruct (new_series _ (index pv)) as [s | e]; simpl; reflexivity.
Qed.

Lemma pivot_fillna_index (pv : PivotTable) :
  pivot_fillna ratings_df = Ok pv ->
  index pv = sorted_unique (map Ratings.movie_id ratings_df)
  /\ columns pv = sorted_unique (map Ratings.user_id ratings_df)
  /\ length (values pv) = length (index pv).
Proof.
  unfold pivot_fillna.
  destruct (has_duplicate_cells ratings_df); [discriminate |].
  intros E. injection E as <-. simpl.
  rewrite length_map. auto.
Qed.

(** The sorted series has one entry per movie that somebody rated. *)
Lemma ranked_scores_labels (s : Series Z Q) :
  ranked_scores user_id ratings_df = Ok s ->
  Permutation (map fst s)
    (sorted_unique (map Ratings.movie_id ratings_df)).
Proof.
  unfold ranked_scores. intros H.
  apply bind_Ok in H. destruct H as (pv & Hpv & H).
  apply bind_Ok in H. destruct H as (X & _ & H).
  apply bind_Ok in H. destruct H as (ur & _ & H).
  apply bind_Ok in H. destruct H as (s0 & Hs0 & H).
  injection H as <-.
  apply pivot_fillna_index in Hpv. destruct Hpv as (Hidx & _ & _).
  unfold new_series in Hs0.
  destruct (Nat.eqb _ _) eqn:E; [| discriminate].
  apply Nat.eqb_eq in E. injection Hs0 as <-.
  eapply Permutation_trans.
  - apply Permutation_map, sort_values_perm.
  - rewrite map_fst_combine by exact E. rewrite Hidx.
    apply Permutation_refl.
Qed.

(** With a user who has a column and ratings that can be factorised, the
    scores are computed and sorted. *)
Lemma ranked_scores_Ok :
  factorisable ratings_df ->
  In user_id (map Ratings.user_id ratings_df) ->
  exists s, ranked_scores user_id ratings_df = Ok s.
Proof.
  intros (pv & X & Hpv & HX) Hu.
  unfold ranked_scores. rewrite Hpv. simpl. rewrite HX. simpl.
  destruct (pivot_fillna_index pv Hpv) as (Hidx & Hcols & Hlen).
  unfold loc_column.
  destruct (position_Some user_id (columns pv)) as [j Hj].
  { rewrite Hcols. apply sorted_unique_In, Hu. }
  rewrite Hj. simpl.
  set (ur := map (fun row => nth j row 0%Q) (values pv)).
  set (C := cosine_similarity X X).
  pose proof (cosine_similarity_rows [ur] C) as Hrows.
  pose proof (cosine_similarity_cols [ur] C) as Hcolumns.
  destruct (cosine_similarity [ur] C) as [| r [| r' rs]];
    try discriminate Hrows.
  inversion Hcolumns as [| ? ? Hr _]; subst.
  unfold new_series. simpl concat. rewrite app_nil_r.
  replace (length r =? length (index pv))%nat with true.
  - simpl. eauto.
  - symmetry. apply Nat.eqb_eq.
    rewrite Hr. unfold C. rewrite cosine_similarity_rows.
    rewrite (fit_transform_rows _ _ HX). exact Hlen.
Qed.

(** An unknown user: the column lookup raises (when nothing raised
    before it). *)
Lemma ranked_scores_unknown_user :
  ~ In user_id (map Ratings.user_id ratings_df) ->
  (exists e, ranked_scores user_id ratings_df = Raise e)
  /\ (factorisable ratings_df ->
      ranked_scores user_id ratings_df = Raise KeyError).
Proof.
  intros Hu.
  assert (Hloc : forall pv, pivot_fillna ratings_df = Ok pv ->
                            loc_column pv user_id = Raise KeyError).
  { intros pv Hpv. unfold loc_column.
    destruct (pivot_fillna_index pv Hpv) as (_ & Hcols & _).
    rewrite position_None; [reflexivity |].
    rewrite Hcols, sorted_unique_In. exact Hu. }
  split.
  - unfold ranked_scores.
    destruct (pivot_fillna ratings_df) as [pv | e] eqn:Hpv; simpl; [| eauto].
    destruct (fit_transform (values pv)) as [X | e]; simpl; [| eauto].
    rewrite (Hloc pv eq_refl). simpl. eauto.
  - intros (pv & X & Hpv & HX).
    unfold ranked_scores. rewrite Hpv. simpl. rewrite HX. simpl.
    rewrite (Hloc pv Hpv). reflexivity.
Qed.

(** The labels kept by [head]: distinct, rated by somebody, not rated by
    the user, and no more than asked for. *)
Lemma top_recommendations_sound (k : Z) (top : list Z) :
  top_recommendations user_id ratings_df k = Ok top ->
  NoDup top
  /\ (forall m, In m top -> eligible user_id ratings_df m = true)
  /\ (0 <= k -> (length top <= Z.to_nat k)%nat).
Proof.
  unfold top_recommendations. intros H.
  apply bind_Ok in H. destruct H as (s & Hs & H). injection H as <-.
  pose proof (ranked_scores_labels s Hs) as Hperm.
  unfold head. rewrite py_slice_map.
  split; [| split].
  - apply py_slice_NoDup. unfold drop. apply NoDup_map_filter.
    apply (Permutation_NoDup (Permutation_sym Hperm)), sorted_unique_NoDup.
  - intros m Hm. apply py_slice_In in Hm.
    apply in_map_iff in Hm. destruct Hm as (e & <- & He).
    unfold drop in He. apply filter_In in He. destruct He as [He Hrated].
    unfold eligible. rewrite Hrated, andb_true_r.
    apply Z_in_In, sorted_unique_In.
    apply (Permutation_in _ Hperm), in_map, He.
  - intros Hk. rewrite py_slice_prefix by exact Hk.
    apply firstn_le_length.
Qed.

Lemma drop_labels (labels : list Z) (s : Series Z Q) :
  map fst (drop labels s)
  = filter (fun m => negb (Z_in m labels)) (map fst s).
Proof.
  unfold drop. induction s as [| e s IH]; simpl.
  - reflexivity.
  - destruct (negb (Z_in (fst e) labels)); simpl; rewrite IH; reflexivity.
Qed.

(** The labels left after the drop are the eligible movies. *)
Lemma dropped_labels_eligible (s : Series Z Q) :
  ranked_scores user_id ratings_df = Ok s ->
  Permutation (map fst (drop (rated_movies user_id ratings_df) s))
    (filter (eligible user_id ratings_df)
       (sorted_unique (map Ratings.movie_id ratings_df))).
Proof.
  intros Hs. rewrite drop_labels.
  eapply Permutation_trans;
    [apply Permutation_filter, (ranked_scores_labels s Hs) |].
  erewrite filter_ext_in; [apply Permutation_refl |].
  intros m Hm. unfold eligible.
  apply (proj1 (sorted_unique_In _ _)) in Hm.
  apply (proj2 (Z_in_In _ _)) in Hm. rewrite Hm. reflexivity.
Qed.

(** When [k] covers all eligible movies, [head] keeps every one of
    them. *)
Lemma top_recommendations_complete (k : Z) (top : list Z) :
  top_recommendations user_id ratings_df k = Ok top ->
  (length (filter (eligible user_id ratings_df)
             (sorted_unique (map Ratings.movie_id ratings_df)))
   <= Z.to_nat k)%nat ->
  0 <= k ->
  forall m, In m top <-> eligible user_id ratings_df m = true.
Proof.
  unfold top_recommendations. intros H Hlen Hk.
  apply bind_Ok in H. destruct H as (s & Hs & H). injection H as <-.
  pose proof (dropped_labels_eligible s Hs) as Hperm.
  unfold head. rewrite py_slice_map, py_slice_prefix by exact Hk.
  rewrite firstn_all2
    by (rewrite (Permutation_length Hperm); exact Hlen).
  intros m. split.
  - intros Hm. apply (Permutation_in _ Hperm), filter_In in Hm. tauto.
  - intros Hm. apply (Permutation_in _ (Permutation_sym Hperm)).
    apply filter_In. split; [| exact Hm].
    unfold eligible in Hm. apply andb_true_iff in Hm.
    apply sorted_unique_In, Z_in_In. tauto.
Qed.

Lemma top_recommendations_Ok (k : Z) :
  factorisable ratings_df ->
  In user_id (map Ratings.user_id ratings_df) ->
  exists top, top_recommendations user_id ratings_df k = Ok top.
Proof.
  intros Hf Hu. destruct (ranked_scores_Ok Hf Hu) as [s Hs].
  unfold top_recommendations. rewrite Hs. simpl. eauto.
Qed.
End Collaborative.

(** Routines for evaluating the recommender on concrete tables. *)
Definition dot_numerics : Numerics.
Proof.
  refine {| fit_transform := fun X => Ok X;
            cosine_similarity := dot_products;
            sort_values_descending := sorted_desc |}.
  - intros X M E. injection E as <-. reflexivity.
  - intros X Y. unfold dot_products. apply length_map.
  - intros X Y. unfold dot_products. apply Forall_forall.
    intros r Hr. apply in_map_iff in Hr. destruct Hr as (x & <- & _).
    apply length_map.
  - intros s. apply sorted_desc_perm.
  - intros s. apply sorted_desc_sorted.
Defined.

Lemma ratings_grid_factorisable : @factorisable dot_numerics ratings_grid.
Proof.
  unfold factorisable.
  destruct (pivot_fillna ratings_grid) as [pv | e] eqn:E.
  - exists pv, (values pv). split; reflexivity.
  - vm_compute in E. discriminate E.
Qed.

Lemma user_1_in_grid : In 1 (map Ratings.user_id ratings_grid).
Proof. apply Z_in_In. vm_compute. reflexivity. Qed.

Lemma user_99_not_in_grid : ~ In 99 (map Ratings.user_id ratings_grid).
Proof.
  intros H. apply Z_in_In in H. vm_compute in H. discriminate H.
Qed.

(** C1: for a user without ratings the pivoted matrix has no column, and
    [loc] raises [KeyError] instead of giving an empty list; the hybrid
    branch, which calls the collaborative recommender first, raises with
    it. *)
Theorem unknown_user_raises {N : Numerics} (user_id : Z)
    (ratings_df : list Ratings.row) (movies_df : list Movies.row) (k : Z) :
  ~ In user_id (map Ratings.user_id ratings_df) ->
  (exists e, get_collaborative_recommendations user_id ratings_df movies_df k
             = Raise e)
  /\ (factorisable ratings_df ->
      get_collaborative_recommendations user_id ratings_df movies_df k
      = Raise KeyError)
  /\ (forall title similarity_matrix indices weight,
         exists e, recommend_hybrid user_id title ratings_df movies_df
                     similarity_matrix indices k weight = Raise e).
Proof.
  intros Hu.
  destruct (ranked_scores_unknown_user user_id ratings_df Hu) as [[e He] Hkey].
  assert (Hraise : get_collaborative_recommendations user_id ratings_df
                     movies_df k = Raise e).
  { rewrite get_collaborative_recommendations_top.
    unfold top_recommendations. rewrite He. reflexivity. }
  split; [eauto | split].
  - intros Hf. rewrite get_collaborative_recommendations_top.
    unfold top_recommendations. rewrite (Hkey Hf). reflexivity.
  - intros title similarity_matrix indices weight.
    exists e. unfold recommend_hybrid. rewrite Hraise. reflexivity.
Qed.

Lemma unknown_user_raises_witness :
  ~ In 99 (map Ratings.user_id ratings_grid)
  /\ @get_collaborative_recommendations dot_numerics 99 ratings_grid
       catalog_grid 5 = Raise KeyError.
Proof.
  split; [exact user_99_not_in_grid |].
  exact (proj1 (proj2 (@unknown_user_raises dot_numerics 99 ratings_grid
                         catalog_grid 5 user_99_not_in_grid))
           ratings_grid_factorisable).
Defined.

(** What the function returns once the scores are there: the titles of the
    catalog rows whose id is among the top labels, in the order of the
    catalog. *)
Lemma collaborative_result {N : Numerics} (user_id : Z)
    (ratings_df : list Ratings.row) (movies_df : list Movies.row) (k : Z) :
  factorisable ratings_df ->
  In user_id (map Ratings.user_id ratings_df) ->
  exists top,
    top_recommendations user_id ratings_df k = Ok top
    /\ get_collaborative_recommendations user_id ratings_df movies_df k
       = Ok (map Movies.title
               (filter (fun m => Z_in (Movies.movie_id m) top) movies_df)).
Proof.
  intros Hf Hu.
  destruct (top_recommendations_Ok user_id ratings_df k Hf Hu) as [top Htop].
  exists top. split; [exact Htop |].
  rewrite get_collaborative_recommendations_top, Htop. reflexivity.
Qed.

Lemma eligible_not_rated (user_id : Z) (ratings_df : list Ratings.row) (m : Z) :
  eligible user_id ratings_df m = true ->
  (exists r, In r ratings_df /\ Ratings.movie_id r = m)
  /\ ~ (exists r, In r ratings_df /\ Ratings.user_id r = user_id
                  /\ Ratings.movie_id r = m).
Proof.
  unfold eligible. intros H. apply andb_true_iff in H. destruct H as [Hin Hnot].
  split.
  - apply Z_in_In, in_map_iff in Hin. destruct Hin as (r & E & Hr). eauto.
  - intros Hr. apply rated_movies_In, Z_in_In in Hr.
    rewrite Hr in Hnot. discriminate Hnot.
Qed.

(** C7: every title that a user with ratings gets is the title of a
    catalog row whose movie this user has not rated; so a movie that the
    user rated does not appear under its title, unless another movie of the
    catalog bears the same title. *)
Theorem rated_movies_are_not_recommended {N : Numerics} (user_id : Z)
    (ratings_df : list Ratings.row) (movies_df : list Movies.row) (k : Z) :
  In user_id (map Ratings.user_id ratings_df) ->
  0 < k ->
  factorisable ratings_df ->
  exists out,
    get_collaborative_recommendations user_id ratings_df movies_df k = Ok out
    /\ (forall t, In t out ->
          exists m,
            In m movies_df /\ Movies.title m = t
            /\ ~ (exists r, In r ratings_df /\ Ratings.user_id r = user_id
                            /\ Ratings.movie_id r = Movies.movie_id m))
    /\ (forall m,
          In m movies_df ->
          (exists r, In r ratings_df /\ Ratings.user_id r = user_id
                     /\ Ratings.movie_id r = Movies.movie_id m) ->
          (forall m', In m' movies_df ->
                      Movies.title m' = Movies.title m ->
                      Movies.movie_id m' = Movies.movie_id m) ->
          ~ In (Movies.title m) out).
Proof.
  intros Hu _ Hf.
  destruct (collaborative_result user_id ratings_df movies_df k Hf Hu)
    as (top & Htop & Hout).
  eexists. split; [exact Hout |].
  assert (Hrows : forall t,
             In t (map Movies.title
                     (filter (fun m => Z_in (Movies.movie_id m) top)
                        movies_df)) ->
             exists m,
               In m movies_df /\ Movies.title m = t
               /\ ~ (exists r, In r ratings_df
                               /\ Ratings.user_id r = user_id
                               /\ Ratings.movie_id r = Movies.movie_id m)).
  { intros t Ht. apply in_map_iff in Ht. destruct Ht as (m & Et & Hm).
    apply filter_In in Hm. destruct Hm as [Hm Hin].
    exists m. split; [exact Hm | split; [exact Et |]].
    destruct (top_recommendations_sound user_id ratings_df k top Htop)
      as (_ & Hsound & _).
    apply Z_in_In, Hsound in Hin.
    apply (eligible_not_rated _ _ _ Hin). }
  split; [exact Hrows |].
  intros m Hm Hrated Honly Hin.
  destruct (Hrows _ Hin) as (m' & Hm' & Et & Hnot).
  apply Hnot. rewrite (Honly m' Hm' Et). exact Hrated.
Qed.

Lemma rated_movies_are_not_recommended_witness :
  exists out,
    @get_collaborative_recommendations dot_numerics 1 ratings_grid
      catalog_grid 5 = Ok out
    /\ (forall t, In t out ->
          exists m,
            In m catalog_grid /\ Movies.title m = t
            /\ ~ (exists r, In r ratings_grid /\ Ratings.user_id r = 1
                            /\ Ratings.movie_id r = Movies.movie_id m))
    /\ (forall m,
          In m catalog_grid ->
          (exists r, In r ratings_grid /\ Ratings.user_id r = 1
                     /\ Ratings.movie_id r = Movies.movie_id m) ->
          (forall m', In m' catalog_grid ->
                      Movies.title m' = Movies.title m ->
                      Movies.movie_id m' = Movies.movie_id m) ->
          ~ In (Movies.title m) out).
Proof.
  apply (@rated_movies_are_not_recommended dot_numerics 1 ratings_grid
           catalog_grid 5 user_1_in_grid).
  - reflexivity.
  - exact ratings_grid_factorisable.
Defined.

(** The claim as worded, on titles, fails where two movies share a title:
    user 1 rated movie 1, "Movie 1", and is offered movie 13, which bears
    the same title, so the title of a movie that the user rated is in the
    output. *)
Lemma rated_title_is_recommended :
  In (Ratings.mk 1 1 2 0) ratings_grid
  /\ In (grid_movie 1) catalog_grid_shared
  /\ Movies.movie_id (grid_movie 1) = 1
  /\ Movies.title (grid_movie 1) = "Movie 1"
  /\ @get_collaborative_recommendations dot_numerics 1 ratings_grid
       catalog_grid_shared 5 = Ok ["Movie 1"; "Movie 14"]
  /\ In (Movies.title (grid_movie 1)) ["Movie 1"; "Movie 14"].
Proof.
  repeat split; try (vm_compute; reflexivity).
  - vm_compute. tauto.
  - vm_compute. tauto.
  - left. reflexivity.
Qed.

Lemma NoDup_map_injective {A B : Type} (f : A -> B) (l : list A) (a b : A) :
  NoDup (map f l) -> In a l -> In b l -> f a = f b -> a = b.
Proof.
  induction l as [| x l IH]; simpl; intros Hnd Ha Hb E.
  - contradiction.
  - apply NoDup_cons_iff in Hnd. destruct Hnd as [Hx Hnd].
    destruct Ha as [-> | Ha], Hb as [-> | Hb].
    + reflexivity.
    + exfalso. apply Hx. rewrite E. apply in_map, Hb.
    + exfalso. apply Hx. rewrite <- E. apply in_map, Ha.
    + apply IH; assumption.
Qed.

(** C10: whatever the user and the number asked for, every title returned
    belongs to a catalog row whose movie has a rating in the store. *)
Theorem only_rated_movies_are_recommended {N : Numerics} (user_id : Z)
    (ratings_df : list Ratings.row) (movies_df : list Movies.row) (k : Z)
    (out : list string) :
  get_collaborative_recommendations user_id ratings_df movies_df k = Ok out ->
  exists rows,
    out = map Movies.title rows
    /\ forall m, In m rows ->
         In m movies_df
         /\ exists r, In r ratings_df
                      /\ Ratings.movie_id r = Movies.movie_id m.
Proof.
  rewrite get_collaborative_recommendations_top. intros H.
  apply bind_Ok in H. destruct H as (top & Htop & H). injection H as <-.
  exists (filter (fun m => Z_in (Movies.movie_id m) top) movies_df).
  split; [reflexivity |].
  intros m Hm. apply filter_In in Hm. destruct Hm as [Hm Hin].
  split; [exact Hm |].
  destruct (top_recommendations_sound user_id ratings_df k top Htop)
    as (_ & Hsound & _).
  apply Z_in_In, Hsound in Hin.
  apply (eligible_not_rated _ _ _ Hin).
Qed.

Lemma only_rated_movies_are_recommended_witness :
  @get_collaborative_recommendations dot_numerics 1 ratings_grid
    catalog_grid 5 = Ok ["Movie 13"; "Movie 14"]
  /\ exists rows,
       ["Movie 13"; "Movie 14"] = map Movies.title rows
       /\ forall m, In m rows ->
            In m catalog_grid
            /\ exists r, In r ratings_grid
                         /\ Ratings.movie_id r = Movies.movie_id m.
Proof.
  assert (E : @get_collaborative_recommendations dot_numerics 1 ratings_grid
                catalog_grid 5 = Ok ["Movie 13"; "Movie 14"])
    by (vm_compute; reflexivity).
  split; [exact E |].
  exact (@only_rated_movies_are_recommended dot_numerics 1 ratings_grid
           catalog_grid 5 _ E).
Defined.

(** When [k] covers the eligible movies the output lists every catalog row
    of an eligible movie. *)
Lemma collaborative_result_complete {N : Numerics} (user_id : Z)
    (ratings_df : list Ratings.row) (movies_df : list Movies.row) (k : Z) :
  factorisable ratings_df ->
  In user_id (map Ratings.user_id ratings_df) ->
  0 <= k ->
  (length (filter (eligible user_id ratings_df)
             (sorted_unique (map Ratings.movie_id ratings_df)))
   <= Z.to_nat k)%nat ->
  get_collaborative_recommendations user_id ratings_df movies_df k
  = Ok (map Movies.title
          (filter (fun m => eligible user_id ratings_df (Movies.movie_id m))
             movies_df)).
Proof.
  intros Hf Hu Hk Hlen.
  destruct (collaborative_result user_id ratings_df movies_df k Hf Hu)
    as (top & Htop & ->).
  do 2 f_equal. apply filter_ext. intros m.
  apply eq_true_iff_eq. rewrite Z_in_In.
  apply (top_recommendations_complete user_id ratings_df k top Htop Hlen Hk).
Qed.

Lemma collaborative_bounds {N : Numerics} (user_id : Z)
    (ratings_df : list Ratings.row) (movies_df : list Movies.row) (k : Z) :
  factorisable ratings_df ->
  In user_id (map Ratings.user_id ratings_df) ->
  0 <= k ->
  NoDup (map Movies.movie_id movies_df) ->
  exists out,
    get_collaborative_recommendations user_id ratings_df movies_df k = Ok out
    /\ Z.of_nat (length out) <= k
    /\ incl out (map Movies.title movies_df).
Proof.
  intros Hf Hu Hk Hids.
  destruct (collaborative_result user_id ratings_df movies_df k Hf Hu)
    as (top & Htop & Hout).
  eexists. split; [exact Hout | split].
  - rewrite length_map.
    pose proof (length_filter_isin movies_df top Hids) as H1.
    destruct (top_recommendations_sound user_id ratings_df k top Htop)
      as (_ & _ & H2).
    specialize (H2 Hk). lia.
  - intros t Ht. apply in_map_iff in Ht. destruct Ht as (m & <- & Hm).
    apply filter_In in Hm. apply in_map. tauto.
Qed.

(** C9: with a number of recommendations beyond the size of the catalog
    the content-based recommender returns two titles of the three-movie
    catalog, but not every other movie: "First Drama" ties with the query
    "Second Drama" on its own score, takes the first rank and is cut off by
    the slice [[1:k+1]], and the query's own title is returned in its
    place. *)
Theorem tie_leaves_another_movie_out :
  Z.of_nat (length catalog_dramas) - 1 < 5
  /\ get_content_based_recommendations "Second Drama" catalog_dramas
       similarity_dramas (load_data_indices catalog_dramas) 5
     = Ok ["Second Drama"; "A Comedy"]
  /\ In "First Drama" (map Movies.title catalog_dramas)
  /\ "First Drama" <> "Second Drama"
  /\ ~ In "First Drama" ["Second Drama"; "A Comedy"].
Proof.
  split; [vm_compute; reflexivity |].
  split; [reflexivity |].
  split; [left; reflexivity |].
  split; [discriminate |].
  simpl. intros [E | [E | []]]; discriminate E.
Qed.

Lemma catalog_grid_ids_distinct : NoDup (map Movies.movie_id catalog_grid).
Proof.
  replace (map Movies.movie_id catalog_grid)
    with (sorted_unique (map Movies.movie_id catalog_grid))
    by (vm_compute; reflexivity).
  apply sorted_unique_NoDup.
Qed.

(** ** The order of the collaborative output *)

(** The titles come out in the order of the catalog rows, not of the
    scores: user 1 of [ratings_grid] can only be offered movies 13 and 14,
    and whatever scores the factorisation gives them, they are listed as the
    catalog lists them. *)
Lemma grid_user_1_titles {N : Numerics} (movies_df : list Movies.row) :
  factorisable ratings_grid ->
  get_collaborative_recommendations 1 ratings_grid movies_df 2
  = Ok (map Movies.title
          (filter (fun m => eligible 1 ratings_grid (Movies.movie_id m))
             movies_df)).
Proof.
  intros Hf.
  apply collaborative_result_complete.
  - exact Hf.
  - exact user_1_in_grid.
  - lia.
  - vm_compute. lia.
Qed.

(** The offer does not depend on the scores: whatever the factorisation
    gives, user 1 of [ratings_grid] is offered the catalog rows of movies 13
    and 14, under the titles that the catalog gives them. *)
Lemma grid_shared_title_any_scores {N : Numerics} :
  factorisable ratings_grid ->
  get_collaborative_recommendations 1 ratings_grid catalog_grid_shared 5
  = Ok ["Movie 1"; "Movie 14"].
Proof.
  intros Hf.
  rewrite (collaborative_result_complete 1 ratings_grid catalog_grid_shared 5
             Hf user_1_in_grid).
  - vm_compute. reflexivity.
  - lia.
  - vm_compute. lia.
Qed.

Lemma grid_user_1_top {N : Numerics} (top : list Z) :
  top_recommendations 1 ratings_grid 2 = Ok top ->
  top = [13; 14] \/ top = [14; 13].
Proof.
  intros Htop.
  destruct (top_recommendations_sound 1 ratings_grid 2 top Htop)
    as (Hnd & _ & Hlen).
  assert (Hmem : forall m, In m top <-> m = 13 \/ m = 14).
  { intros m.
    rewrite (top_recommendations_complete 1 ratings_grid 2 top Htop);
      [| vm_compute; lia | lia].
    split.
    - intros H. destruct (eligible_not_rated _ _ _ H) as [(r & Hr & Em) _].
      assert (Hin : In m [13; 14]).
      { replace [13; 14]
          with (filter (eligible 1 ratings_grid)
                  (sorted_unique (map Ratings.movie_id ratings_grid)))
          by (vm_compute; reflexivity).
        apply filter_In. split; [| exact H].
        apply sorted_unique_In, in_map_iff. eauto. }
      simpl in Hin. intuition congruence.
    - intros [-> | ->]; vm_compute; reflexivity. }
  specialize (Hlen ltac:(lia)).
  pose proof (proj2 (Hmem 13) (or_introl eq_refl)) as H13.
  pose proof (proj2 (Hmem 14) (or_intror eq_refl)) as H14.
  destruct top as [| a [| b [| c top]]]; simpl in Hlen; try lia.
  - destruct H13.
  - simpl in H13, H14. lia.
  - pose proof (proj1 (Hmem a) (or_introl eq_refl)) as Ha.
    pose proof (proj1 (Hmem b) (or_intror (or_introl eq_refl))) as Hb.
    simpl in H13, H14.
    destruct Ha as [-> | ->], Hb as [-> | ->]; auto; exfalso; lia.
Qed.

(** C2: the output is not in rank order.  For every scoring of
    [ratings_grid], user 1 gets "Movie 13" before "Movie 14" from the
    catalog that lists them so, and "Movie 14" before "Movie 13" from the
    catalog that lists them the other way round, although the ranked labels
    are the same for both; so with one of the two catalogs the output
    differs from the ranked list of titles. *)
Theorem collaborative_titles_follow_catalog_order {N : Numerics} :
  factorisable ratings_grid ->
  get_collaborative_recommendations 1 ratings_grid catalog_grid 2
  = Ok ["Movie 13"; "Movie 14"]
  /\ get_collaborative_recommendations 1 ratings_grid catalog_grid_swapped 2
     = Ok ["Movie 14"; "Movie 13"]
  /\ (get_collaborative_recommendations 1 ratings_grid catalog_grid 2
      <> spec_recommendForUser 1 ratings_grid catalog_grid 2
      \/ get_collaborative_recommendations 1 ratings_grid
           catalog_grid_swapped 2
         <> spec_recommendForUser 1 ratings_grid catalog_grid_swapped 2).
Proof.
  intros Hf.
  rewrite !(grid_user_1_titles _ Hf).
  split; [vm_compute; reflexivity | split; [vm_compute; reflexivity |]].
  destruct (top_recommendations_Ok 1 ratings_grid 2 Hf user_1_in_grid)
    as [top Htop].
  unfold spec_recommendForUser. rewrite Htop. simpl bind.
  destruct (grid_user_1_top top Htop) as [-> | ->].
  - right. vm_compute. discriminate.
  - left. vm_compute. discriminate.
Qed.

Lemma collaborative_titles_follow_catalog_order_witness :
  @get_collaborative_recommendations dot_numerics 1 ratings_grid
    catalog_grid 2 = Ok ["Movie 13"; "Movie 14"]
  /\ @top_recommendations dot_numerics 1 ratings_grid 2 = Ok [14; 13]
  /\ @spec_recommendForUser dot_numerics 1 ratings_grid catalog_grid 2
     = Ok ["Movie 14"; "Movie 13"].
Proof.
  split.
  - exact (proj1 (@collaborative_titles_follow_catalog_order dot_numerics
                    ratings_grid_factorisable)).
  - split; vm_compute; reflexivity.
Defined.

(** ** The hybrid merge *)

Lemma filter_all {A : Type} (f : A -> bool) (l : list A) :
  (forall x, In x l -> f x = true) -> filter f l = l.
Proof.
  induction l as [| a l IH]; simpl; intros H.
  - reflexivity.
  - rewrite (H a (or_introl eq_refl)). f_equal. apply IH. auto.
Qed.

Lemma filter_comm {A : Type} (f g : A -> bool) (l : list A) :
  filter f (filter g l) = filter g (filter f l).
Proof.
  induction l as [| a l IH]; simpl.
  - reflexivity.
  - destruct (f a) eqn:Ef, (g a) eqn:Eg; simpl;
      rewrite ?Ef, ?Eg, IH; reflexivity.
Qed.

Lemma first_occurrences_filter (p : string -> bool) (l : list string) :
  first_occurrences (filter p l) = filter p (first_occurrences l).
Proof.
  induction l as [| a l IH]; simpl.
  - reflexivity.
  - destruct (p a) eqn:Ea; simpl; rewrite ?Ea.
    + rewrite IH. f_equal. apply filter_comm.
    + rewrite IH, filter_comm. symmetry. apply filter_all.
      intros x Hx. apply filter_In in Hx. destruct Hx as [_ Hx].
      apply negb_true_iff, String.eqb_neq. congruence.
Qed.

Lemma first_occurrences_In (x : string) (l : list string) :
  In x (first_occurrences l) <-> In x l.
Proof.
  induction l as [| a l IH]; simpl.
  - reflexivity.
  - rewrite filter_In, IH.
    destruct (String.eqb a x) eqn:E.
    + apply String.eqb_eq in E. intuition.
    + simpl. apply String.eqb_neq in E. intuition.
Qed.

Lemma first_occurrences_NoDup (l : list string) : NoDup (first_occurrences l).
Proof.
  induction l as [| a l IH]; simpl.
  - constructor.
  - constructor; [| apply NoDup_filter, IH].
    intros H. apply filter_In in H. destruct H as [_ H].
    rewrite String.eqb_refl in H. discriminate H.
Qed.

Lemma first_occurrences_length (l : list string) :
  (length (first_occurrences l) <= length l)%nat.
Proof.
  induction l as [| a l IH]; simpl.
  - lia.
  - pose proof (filter_length_le (fun y => negb (String.eqb a y))
                  (first_occurrences l)). lia.
Qed.

Lemma str_in_In (x : string) (l : list string) : str_in x l = true <-> In x l.
Proof.
  unfold str_in. rewrite existsb_exists. split.
  - intros (y & Hy & E). apply String.eqb_eq in E. subst y. exact Hy.
  - intros H. exists x. split; [exact H | apply String.eqb_refl].
Qed.

Lemma str_in_snoc (t x : string) (acc : list string) :
  str_in t (acc ++ [x]) = str_in t acc || String.eqb x t.
Proof.
  unfold str_in. rewrite existsb_app. simpl.
  rewrite orb_false_r, (String.eqb_sym t x). reflexivity.
Qed.

Lemma filter_unseen_snoc (acc : list string) (x : string) (l : list string) :
  filter (fun t => negb (str_in t (acc ++ [x]))) l
  = filter (fun y => negb (String.eqb x y))
      (filter (fun t => negb (str_in t acc)) l).
Proof.
  induction l as [| t l IH]; simpl.
  - reflexivity.
  - rewrite str_in_snoc, IH.
    destruct (str_in t acc); simpl; [reflexivity |].
    destruct (String.eqb x t); reflexivity.
Qed.

(** The loop appends, in order, the first occurrence of every content title
    that the list did not hold before. *)
Lemma append_unseen_spec (hybrid_recs content : list string) :
  append_unseen hybrid_recs content
  = hybrid_recs
    ++ first_occurrences
         (filter (fun t => negb (str_in t hybrid_recs)) content).
Proof.
  unfold append_unseen. revert hybrid_recs.
  induction content as [| x content IH]; intros acc; simpl.
  - rewrite app_nil_r. reflexivity.
  - destruct (str_in x acc) eqn:E; simpl.
    + apply IH.
    + rewrite IH, <- app_assoc. simpl. do 2 f_equal.
      rewrite filter_unseen_snoc. apply first_occurrences_filter.
Qed.

Lemma length_py_slice_prefix {A : Type} (n : Z) (l : list A) :
  0 <= n -> Z.of_nat (length (py_slice 0 n l)) <= n.
Proof.
  intros Hn. rewrite py_slice_prefix by exact Hn.
  pose proof (firstn_le_length (Z.to_nat n) l). lia.
Qed.

(** C3: the collaborative share is [int(k * (1 - weight))], the product
    truncated toward zero, and the content share is the rest of [k].  The
    result is the first titles of the collaborative list up to that share,
    followed by the content titles within their share that are new, each
    once and in ranked order; its length is the number of collaborative
    titles taken plus the number of content titles appended, and it stays
    within [k] when the share does. *)
Theorem hybrid_merge_composition (collab_recs content_recs : list string)
    (k : Z) (weight : float) (c : Z) :
  0 < k ->
  PrimFloat.leb 0 weight = true ->
  PrimFloat.leb weight 1 = true ->
  collab_count k weight = Ok c ->
  let taken := py_slice 0 c collab_recs in
  let appended :=
    first_occurrences
      (filter (fun t => negb (str_in t taken))
         (py_slice 0 (k - c) content_recs)) in
  hybrid_merge collab_recs content_recs k weight = Ok (taken ++ appended)
  /\ length (taken ++ appended) = (length taken + length appended)%nat
  /\ NoDup appended
  /\ (forall t, In t appended -> In t content_recs /\ ~ In t taken)
  /\ (0 <= c <= k -> Z.of_nat (length (taken ++ appended)) <= k).
Proof.
  intros _ _ _ Hc taken appended.
  split; [| split; [| split; [| split]]].
  - unfold hybrid_merge. rewrite Hc. simpl bind.
    rewrite append_unseen_spec. reflexivity.
  - apply length_app.
  - apply first_occurrences_NoDup.
  - intros t Ht. apply first_occurrences_In, filter_In in Ht.
    destruct Ht as [Ht Hnew]. split.
    + apply py_slice_In in Ht. exact Ht.
    + intros Hin. apply str_in_In in Hin. rewrite Hin in Hnew.
      discriminate Hnew.
  - intros Hck. rewrite length_app.
    pose proof (length_py_slice_prefix c collab_recs (proj1 Hck)) as H1.
    assert (H2 : Z.of_nat (length appended) <= k - c).
    { unfold appended.
      pose proof (first_occurrences_length
                    (filter (fun t => negb (str_in t taken))
                       (py_slice 0 (k - c) content_recs))) as Ha.
      pose proof (filter_length_le (fun t => negb (str_in t taken))
                    (py_slice 0 (k - c) content_recs)) as Hb.
      pose proof (length_py_slice_prefix (k - c) content_recs
                    ltac:(lia)) as Hd.
      lia. }
    fold taken in H1. lia.
Qed.

Lemma hybrid_merge_composition_witness :
  hybrid_merge ["a"; "b"; "c"; "d"; "e"] ["v"; "b"; "w"; "x"; "y"] 5
    0.25%float
  = Ok (["a"; "b"; "c"] ++ ["v"])
  /\ collab_count 5 0.25%float = Ok 3.
Proof.
  assert (Hc : collab_count 5 0.25%float = Ok 3) by (vm_compute; reflexivity).
  split; [| exact Hc].
  exact (proj1 (hybrid_merge_composition ["a"; "b"; "c"; "d"; "e"]
                  ["v"; "b"; "w"; "x"; "y"] 5 0.25%float 3
                  eq_refl eq_refl eq_refl Hc)).
Defined.

(** The claim as worded, with [round] in place of [int], fails: three of
    four titles' worth is truncated to 3, not rounded to 4, and the tenth
    of ten computed in floats falls just short of 1. *)
Lemma collab_count_is_not_rounded :
  collab_count 5 0.25%float = Ok 3
  /\ spec_collaborative_count 5 0.25%float = Ok 4
  /\ collab_count 10 0.9%float = Ok 0
  /\ spec_collaborative_count 10 0.9%float = Ok 1
  /\ hybrid_merge ["a"; "b"; "c"; "d"; "e"] ["v"; "w"; "x"; "y"; "z"] 5
       0.25%float
     <> spec_hybrid_merge ["a"; "b"; "c"; "d"; "e"] ["v"; "w"; "x"; "y"; "z"]
          5 0.25%float.
Proof.
  repeat split; try (vm_compute; reflexivity).
  vm_compute. discriminate.
Qed.

(** On every position of the two sliders the share is computed and lies
    between 0 and [k]. *)
Lemma collab_count_on_sliders (k : Z) (weight : float) :
  In k slider_counts -> In weight slider_weights ->
  exists c, collab_count k weight = Ok c /\ 0 <= c <= k.
Proof.
  intros Hk Hw.
  assert (H : forallb
                (fun k => forallb
                   (fun w => match collab_count k w with
                             | Ok c => (0 <=? c) && (c <=? k)
                             | Raise _ => false
                             end) slider_weights) slider_counts = true)
    by (vm_compute; reflexivity).
  rewrite forallb_forall in H. specialize (H k Hk).
  rewrite forallb_forall in H. specialize (H weight Hw).
  destruct (collab_count k weight) as [c | e]; [| discriminate H].
  exists c. split; [reflexivity |]. lia.
Qed.

(** ** The content similarity matrix *)

Section ContentSimilarity.
Local Open Scope R_scope.

Lemma nonzero_neq_0 (x : R) : Tfidf.nonzero x <> 0.
Proof. unfold Tfidf.nonzero. destruct (Req_dec_T x 0); lra. Qed.

Lemma dot_scaled (a b : R) (x y : list R) :
  a <> 0 -> b <> 0 ->
  Tfidf.dot (map (fun v => v / a) x) (map (fun v => v / b) y)
  = Tfidf.dot x y / (a * b).
Proof.
  intros Ha Hb. unfold Tfidf.dot. revert y.
  induction x as [| u x IH]; intros [| v y]; simpl;
    try (field; split; assumption).
  rewrite IH. field. split; assumption.
Qed.

Lemma dot_self_nonneg (x : list R) : 0 <= Tfidf.dot x x.
Proof.
  unfold Tfidf.dot. induction x as [| u x IH]; simpl.
  - lra.
  - pose proof (Rle_0_sqr u) as Hu. unfold Rsqr in Hu. lra.
Qed.

(** A component squared is no more than the sum of the squares. *)
Lemma dot_self_component {A : Type} (f : A -> R) (l : list A) (a : A) :
  In a l -> f a * f a <= Tfidf.dot (map f l) (map f l).
Proof.
  unfold Tfidf.dot. induction l as [| b l IH]; simpl; intros H.
  - contradiction.
  - pose proof (dot_self_nonneg (map f l)) as Hl. unfold Tfidf.dot in Hl.
    pose proof (Rle_0_sqr (f b)) as Hb. unfold Rsqr in Hb.
    destruct H as [-> | H]; [lra |].
    specialize (IH H). lra.
Qed.

Lemma cosine_self (x : list R) :
  Tfidf.dot x x <> 0 -> Tfidf.cosine x x = 1.
Proof.
  intros H. unfold Tfidf.cosine, Tfidf.l2_norm, Tfidf.nonzero.
  pose proof (dot_self_nonneg x) as Hpos.
  destruct (Req_dec_T (R_sqrt.sqrt (Tfidf.dot x x)) 0) as [E | E].
  - apply sqrt_eq_0 in E; [contradiction | exact Hpos].
  - rewrite sqrt_sqrt by exact Hpos. field. exact H.
Qed.

Lemma idf_ge_1 (docs : list (list string)) (t : string) :
  1 <= Tfidf.idf docs t.
Proof.
  unfold Tfidf.idf, Tfidf.df.
  pose proof (filter_length_le (str_in t) docs) as Hle.
  apply le_INR in Hle.
  pose proof (pos_INR (length (filter (str_in t) docs))) as Hdf.
  set (n := INR (length docs)) in *.
  set (k := INR (length (filter (str_in t) docs))) in *.
  assert (Hq : 1 <= (1 + n) / (1 + k)).
  { apply (Rmult_le_reg_r (1 + k)); [lra |].
    unfold Rdiv. rewrite Rmult_assoc, Rinv_l by lra. lra. }
  destruct Hq as [Hq | <-].
  - pose proof (ln_increasing 1 ((1 + n) / (1 + k)) ltac:(lra) Hq) as H.
    rewrite ln_1 in H. lra.
  - rewrite ln_1. lra.
Qed.

(** A document with a token has a weight vector that is not zero. *)
Lemma weights_not_zero (docs : list (list string)) (d : list string) :
  In d docs -> d <> [] ->
  Tfidf.dot (Tfidf.weights docs d) (Tfidf.weights docs d) <> 0.
Proof.
  intros Hd Hne. destruct d as [| t d]; [contradiction |].
  assert (Ht : In t (Tfidf.vocabulary docs)).
  { unfold Tfidf.vocabulary. apply first_occurrences_In, in_concat.
    exists (t :: d). split; [exact Hd | left; reflexivity]. }
  pose proof (dot_self_component
                (fun t' => Tfidf.tf (t :: d) t' * Tfidf.idf docs t')
                (Tfidf.vocabulary docs) t Ht) as Hsum.
  fold (Tfidf.weights docs (t :: d)) in Hsum.
  pose proof (idf_ge_1 docs t) as Hidf.
  assert (Htf : 1 <= Tfidf.tf (t :: d) t).
  { unfold Tfidf.tf.
    assert (Hc : (1 <= count_occ string_dec (t :: d) t)%nat)
      by (apply count_occ_In; left; reflexivity).
    apply le_INR in Hc. simpl INR in Hc. exact Hc. }
  cbv beta in Hsum.
  set (w := Tfidf.tf (t :: d) t * Tfidf.idf docs t) in *.
  assert (Hw : 1 <= w) by (unfold w; nra).
  intros E. rewrite E in Hsum. nra.
Qed.

Lemma Forall2_map_self {A B : Type} (P : A -> B -> Prop) (f : A -> B)
    (l : list A) :
  (forall a, In a l -> P a (f a)) -> Forall2 P l (map f l).
Proof.
  induction l as [| a l IH]; intros H; simpl; constructor.
  - apply H. left. reflexivity.
  - apply IH. intros b Hb. apply H. right. exact Hb.
Qed.

Lemma weights_of_no_token (docs : list (list string)) :
  Tfidf.dot (Tfidf.weights docs []) (Tfidf.weights docs []) = 0.
Proof.
  unfold Tfidf.weights, Tfidf.dot.
  induction (Tfidf.vocabulary docs) as [| u l IH].
  - reflexivity.
  - cbn [map combine fold_right fst snd]. rewrite IH.
    unfold Tfidf.tf. simpl. ring.
Qed.

(** A normalised row has Euclidean norm 1, or 0 when it has no weight. *)
Lemma normalize_l2_norm (v : list R) :
  Tfidf.l2_norm (Tfidf.normalize L2 v)
  = if Req_dec_T (Tfidf.dot v v) 0 then 0 else 1.
Proof.
  unfold Tfidf.l2_norm at 1. simpl Tfidf.normalize.
  rewrite dot_scaled by apply nonzero_neq_0.
  fold (Tfidf.cosine v v).
  destruct (Req_dec_T (Tfidf.dot v v) 0) as [E | E].
  - unfold Tfidf.cosine. rewrite E. unfold Rdiv. rewrite Rmult_0_l.
    apply sqrt_0.
  - rewrite (cosine_self v E). apply sqrt_1.
Qed.

Lemma kernel_of_normalised_rows (W : list (list R)) :
  Tfidf.linear_kernel (map (Tfidf.normalize L2) W)
    (map (Tfidf.normalize L2) W)
  = Tfidf.cosine_similarity_matrix W.
Proof.
  unfold Tfidf.cosine_similarity_matrix, Tfidf.linear_kernel.
  simpl Tfidf.normalize. rewrite !map_map.
  apply map_ext. intros x. rewrite !map_map.
  apply map_ext. intros y.
  unfold Tfidf.cosine. apply dot_scaled; apply nonzero_neq_0.
Qed.

Lemma fit_transform_Ok (analyzer : string -> list string) (norm : norm_kind)
    (movies_df : list Movies.row) :
  let docs := map analyzer (map genres movies_df) in
  Tfidf.vocabulary docs <> [] ->
  Tfidf.fit_transform analyzer norm (map genres movies_df)
  = Ok (map (Tfidf.normalize norm) (Tfidf.corpus_weights docs)).
Proof.
  intros docs Hvoc. unfold Tfidf.fit_transform. fold docs.
  destruct (Tfidf.vocabulary docs); [contradiction | reflexivity].
Qed.

(** The matrix of [load_data] in closed form. *)
Lemma load_data_similarity_matrix_Ok (analyzer : string -> list string)
    (movies_df : list Movies.row) :
  let docs := map analyzer (map genres movies_df) in
  Tfidf.vocabulary docs <> [] ->
  load_data_similarity_matrix analyzer movies_df
  = Ok (Tfidf.cosine_similarity_matrix (Tfidf.corpus_weights docs)).
Proof.
  intros docs Hvoc. unfold load_data_similarity_matrix.
  rewrite (fit_transform_Ok analyzer L2 movies_df Hvoc). simpl bind.
  rewrite kernel_of_normalised_rows. reflexivity.
Qed.

(** The rows that the vectorizer returns: of norm 1, or 0 for a document
    without a token. *)
Lemma tfidf_rows_are_normalised (docs : list (list string)) :
  Forall2 (fun d v => Tfidf.l2_norm v = if Tfidf.no_token d then 0 else 1)
    docs (map (Tfidf.normalize L2) (Tfidf.corpus_weights docs)).
Proof.
  unfold Tfidf.corpus_weights. rewrite map_map.
  apply Forall2_map_self. intros d Hd.
  rewrite normalize_l2_norm.
  destruct d as [| t d]; simpl Tfidf.no_token.
  - destruct (Req_dec_T _ 0) as [_ | E]; [reflexivity |].
    exfalso. apply E, weights_of_no_token.
  - destruct (Req_dec_T _ 0) as [E | _]; [| reflexivity].
    exfalso. apply (weights_not_zero docs (t :: d) Hd); [discriminate |].
    exact E.
Qed.

(** C6: the vectorizer runs with its default [norm], ['l2'], so every
    TF-IDF row is divided by its Euclidean norm (a row with a term has norm
    1), and the linear kernel of the rows is the cosine similarity matrix
    of the TF-IDF weights. *)
Theorem similarity_matrix_is_cosine (analyzer : string -> list string)
    (movies_df : list Movies.row) :
  let docs := map analyzer (map genres movies_df) in
  Tfidf.vocabulary docs <> [] ->
  exists tfidf_matrix,
    Tfidf.fit_transform analyzer L2 (map genres movies_df) = Ok tfidf_matrix
    /\ Forall2 (fun d v => Tfidf.l2_norm v = if Tfidf.no_token d then 0 else 1)
         docs tfidf_matrix
    /\ load_data_similarity_matrix analyzer movies_df
       = Ok (Tfidf.cosine_similarity_matrix (Tfidf.corpus_weights docs)).
Proof.
  intros docs Hvoc.
  exists (map (Tfidf.normalize L2) (Tfidf.corpus_weights docs)).
  split; [| split].
  - apply fit_transform_Ok, Hvoc.
  - apply tfidf_rows_are_normalised.
  - apply load_data_similarity_matrix_Ok, Hvoc.
Qed.

(** A movie whose genre string has a token is at similarity 1 to itself,
    and so is every movie with the same tokens. *)
Lemma same_genres_similarity_is_1 (analyzer : string -> list string)
    (movies_df : list Movies.row) (M : list (list R)) (i j : nat)
    (m m' : Movies.row) :
  load_data_similarity_matrix analyzer movies_df = Ok M ->
  nth_error movies_df i = Some m ->
  nth_error movies_df j = Some m' ->
  analyzer (genres m) = analyzer (genres m') ->
  analyzer (genres m) <> [] ->
  nth j (nth i M []) 0 = 1.
Proof.
  intros HM Hm Hm' Esame Hne.
  set (docs := map analyzer (map genres movies_df)).
  assert (Hd : nth_error docs i = Some (analyzer (genres m))).
  { unfold docs. rewrite map_map.
    apply (map_nth_error (fun m => analyzer (genres m))), Hm. }
  assert (Hd' : nth_error docs j = Some (analyzer (genres m))).
  { unfold docs. rewrite map_map, Esame.
    apply (map_nth_error (fun m => analyzer (genres m))), Hm'. }
  assert (Hvoc : Tfidf.vocabulary docs <> []).
  { intros E. destruct (analyzer (genres m)) as [| t d] eqn:Ed;
      [contradiction |].
    assert (Ht : In t (Tfidf.vocabulary docs)).
    { unfold Tfidf.vocabulary. apply first_occurrences_In, in_concat.
      exists (t :: d). split; [apply (nth_error_In _ _ Hd) | left; reflexivity]. }
    rewrite E in Ht. exact Ht. }
  pose proof (load_data_similarity_matrix_Ok analyzer movies_df Hvoc) as HM'.
  cbv zeta in HM'. fold docs in HM'. rewrite HM' in HM. injection HM as <-.
  unfold Tfidf.cosine_similarity_matrix.
  set (X := Tfidf.corpus_weights docs).
  assert (Hx : forall n, nth_error docs n = Some (analyzer (genres m)) ->
                 nth_error X n
                 = Some (Tfidf.weights docs (analyzer (genres m)))).
  { intros n Hn. unfold X, Tfidf.corpus_weights.
    apply (map_nth_error (fun d => Tfidf.weights docs d)), Hn. }
  rewrite (nth_error_nth _ _ _
             (map_nth_error (fun x => map (fun y => Tfidf.cosine x y) X)
                _ _ (Hx i Hd))).
  rewrite (nth_error_nth _ _ _
             (map_nth_error
                (fun y => Tfidf.cosine
                            (Tfidf.weights docs (analyzer (genres m))) y)
                _ _ (Hx j Hd'))).
  apply cosine_self, weights_not_zero; [| exact Hne].
  apply (nth_error_In _ _ Hd).
Qed.
End ContentSimilarity.

Lemma abc_documents :
  map words (map genres catalog_abc)
  = [["action"]; ["action"; "comedy"]; ["comedy"]].
Proof. vm_compute. reflexivity. Qed.

Lemma abc_vocabulary :
  Tfidf.vocabulary (map words (map genres catalog_abc)) <> [].
Proof. rewrite abc_documents. vm_compute. discriminate. Qed.

Section ContentSimilarityExample.
Local Open Scope R_scope.

Lemma similarity_matrix_is_cosine_witness :
  exists tfidf_matrix,
    Tfidf.fit_transform words L2 (map genres catalog_abc) = Ok tfidf_matrix
    /\ Forall2 (fun d v => Tfidf.l2_norm v = if Tfidf.no_token d then 0 else 1)
         (map words (map genres catalog_abc)) tfidf_matrix
    /\ load_data_similarity_matrix words catalog_abc
       = Ok (Tfidf.cosine_similarity_matrix
               (Tfidf.corpus_weights (map words (map genres catalog_abc)))).
Proof.
  exact (similarity_matrix_is_cosine words catalog_abc abc_vocabulary).
Defined.

(** Without normalisation "Alpha" would be at [(ln (4/3) + 1)^2] to
    itself. *)
Lemma spec_similarity_abc_0_0 (M : list (list R)) :
  spec_similarity_matrix words catalog_abc = Ok M ->
  nth 0 (nth 0 M []) 0 = (ln (4 / 3) + 1) * (ln (4 / 3) + 1).
Proof.
  unfold spec_similarity_matrix, Tfidf.fit_transform, Tfidf.linear_kernel,
    Tfidf.corpus_weights.
  rewrite abc_documents.
  unfold Tfidf.weights, Tfidf.vocabulary. simpl.
  intros E. injection E as <-.
  unfold Tfidf.dot, Tfidf.tf, Tfidf.idf, Tfidf.df. simpl.
  replace ((1 + (1 + 1 + 1)) / (1 + (1 + 1))) with (4 / 3) by field.
  ring.
Qed.

(** The claim as worded fails on the three movies of the scenario: the
    matrix that [load_data] builds is not the linear kernel of
    unnormalised TF-IDF vectors, and "Alpha" is at similarity 1 to
    itself. *)
Lemma similarity_matrix_is_not_the_raw_kernel :
  load_data_similarity_matrix words catalog_abc
  <> spec_similarity_matrix words catalog_abc
  /\ exists M, load_data_similarity_matrix words catalog_abc = Ok M
               /\ nth 0 (nth 0 M []) 0 = 1.
Proof.
  pose proof (load_data_similarity_matrix_Ok words catalog_abc abc_vocabulary)
    as HM.
  cbv zeta in HM.
  set (M := Tfidf.cosine_similarity_matrix
              (Tfidf.corpus_weights (map words (map genres catalog_abc))))
    in HM.
  assert (H1 : nth 0 (nth 0 M []) 0 = 1).
  { apply (same_genres_similarity_is_1 words catalog_abc M 0 0
             (movie 1 "Alpha" ["action"]) (movie 1 "Alpha" ["action"]) HM);
      try reflexivity.
    vm_compute. discriminate. }
  split; [| exists M; split; [exact HM | exact H1]].
  intros E. rewrite HM in E. symmetry in E.
  rewrite (spec_similarity_abc_0_0 M E) in H1.
  pose proof (ln_increasing 1 (4 / 3) ltac:(lra) ltac:(lra)) as Hln.
  rewrite ln_1 in Hln. nra.
Qed.

Lemma dramas_documents :
  map words (map genres catalog_dramas) = [["drama"]; ["drama"]; ["comedy"]].
Proof. vm_compute. reflexivity. Qed.

(** The row of "Second Drama" in the matrix of [load_data] is the row
    [1; 1; 0] of [similarity_dramas]: the first drama ties with the second
    one on its own score. *)
Lemma dramas_tie (M : list (list R)) :
  load_data_similarity_matrix words catalog_dramas = Ok M ->
  nth 0 (nth 1 M []) 0 = 1
  /\ nth 1 (nth 1 M []) 0 = 1
  /\ nth 2 (nth 1 M []) 0 = 0.
Proof.
  intros HM. split; [| split].
  - apply (same_genres_similarity_is_1 words catalog_dramas M 1 0
             (movie 2 "Second Drama" ["drama"])
             (movie 1 "First Drama" ["drama"]) HM);
      try reflexivity.
    vm_compute. discriminate.
  - apply (same_genres_similarity_is_1 words catalog_dramas M 1 1
             (movie 2 "Second Drama" ["drama"])
             (movie 2 "Second Drama" ["drama"]) HM);
      try reflexivity.
    vm_compute. discriminate.
  - pose proof (load_data_similarity_matrix_Ok words catalog_dramas) as HM'.
    cbv zeta in HM'. rewrite dramas_documents in HM'.
    rewrite HM' in HM by (vm_compute; discriminate).
    injection HM as <-.
    unfold Tfidf.cosine_similarity_matrix, Tfidf.corpus_weights.
    cbn [map nth].
    unfold Tfidf.cosine.
    replace (Tfidf.dot (Tfidf.weights [["drama"]; ["drama"]; ["comedy"]]
                          ["drama"])
               (Tfidf.weights [["drama"]; ["drama"]; ["comedy"]] ["comedy"]))
      with 0.
    + unfold Rdiv. apply Rmult_0_l.
    + unfold Tfidf.weights, Tfidf.vocabulary. simpl.
      unfold Tfidf.dot, Tfidf.tf. simpl. ring.
Qed.
End ContentSimilarityExample.

(* ------------------------------------------------------------------ *)
(** * Further properties of the code                                    *)
(* ------------------------------------------------------------------ *)

(** ** Lookups through the reverse index *)

Lemma combine_seq_In {A : Type} (l : list A) (start i : nat) (a : A) :
  In (a, i) (combine l (seq start (length l)))
  <-> (start <= i)%nat /\ nth_error l (i - start) = Some a.
Proof.
  revert start. induction l as [| b l IH]; intros start; simpl.
  - split; [contradiction |]. intros [_ H].
    destruct (i - start)%nat; discriminate H.
  - rewrite IH. split.
    + intros [E | [Hle Hnth]].
      * injection E as -> ->. rewrite Nat.sub_diag. auto.
      * split; [lia |].
        replace (i - start)%nat with (S (i - S start)) by lia. exact Hnth.
    + intros [Hle Hnth].
      destruct (i - start)%nat as [| n] eqn:E.
      * left. injection Hnth as ->. f_equal. lia.
      * right. split; [lia |].
        replace (i - S start)%nat with n by lia. exact Hnth.
Qed.

(** The positions listed under a label are rows that bear it. *)
Lemma load_data_indices_positions (movies_df : list Movies.row) (t : string)
    (i : nat) :
  In i (map snd (filter (fun e => String.eqb (fst e) t)
                   (load_data_indices movies_df)))
  <-> nth_error (map Movies.title movies_df) i = Some t.
Proof.
  rewrite load_data_indices_every_row, in_map_iff.
  rewrite <- (length_map Movies.title movies_df).
  split.
  - intros ([a j] & E & H). simpl in E. subst j.
    apply filter_In in H. destruct H as [H Et]. simpl in Et.
    apply String.eqb_eq in Et. subst a.
    apply combine_seq_In in H. rewrite Nat.sub_0_r in H. tauto.
  - intros H. exists (t, i). split; [reflexivity |].
    apply filter_In. split; [| apply String.eqb_refl].
    apply combine_seq_In. rewrite Nat.sub_0_r. split; [lia | exact H].
Qed.

(** A scalar lookup points at a row that bears the title. *)
Lemma series_getitem_scalar_row (movies_df : list Movies.row) (t : string)
    (i : nat) :
  series_getitem t (load_data_indices movies_df) = Ok (Scalar i) ->
  nth_error (map Movies.title movies_df) i = Some t.
Proof.
  unfold series_getitem. intros H.
  apply load_data_indices_positions.
  destruct (map snd _) as [| v [| w vs]]; try discriminate H.
  injection H as ->. left. reflexivity.
Qed.

Lemma unique_title_position (movies_df : list Movies.row) (t : string) :
  count_occ string_dec (map Movies.title movies_df) t = 1%nat ->
  exists i,
    series_getitem t (load_data_indices movies_df) = Ok (Scalar i)
    /\ option_map Movies.title (nth_error movies_df i) = Some t.
Proof.
  intros Hcount.
  pose proof (load_data_indices_entries movies_df t) as Hlen.
  rewrite Hcount in Hlen.
  assert (E : exists i, series_getitem t (load_data_indices movies_df)
                        = Ok (Scalar i)).
  { unfold series_getitem.
    destruct (filter _ (load_data_indices movies_df)) as [| e [| e' es]];
      try discriminate Hlen.
    simpl. eauto. }
  destruct E as [i Hi]. exists i. split; [exact Hi |].
  rewrite <- nth_error_map. apply series_getitem_scalar_row, Hi.
Qed.

(** X1: the index round trip.  A title that names exactly one movie is
    looked up to a single row position, and the row at that position bears
    the title. *)
Theorem unique_title_lookup (movies_df : list Movies.row) (t : string) :
  count_occ string_dec (map Movies.title movies_df) t = 1%nat ->
  exists i,
    series_getitem t (load_data_indices movies_df) = Ok (Scalar i)
    /\ option_map Movies.title (nth_error movies_df i) = Some t.
Proof. apply unique_title_position. Qed.

Lemma unique_title_lookup_witness :
  exists i,
    series_getitem "Beta" (load_data_indices catalog_abc) = Ok (Scalar i)
    /\ option_map Movies.title (nth_error catalog_abc i) = Some "Beta".
Proof.
  apply (unique_title_lookup catalog_abc "Beta"). reflexivity.
Defined.

(** X2: in every catalog a title shared by two movies or more makes the
    content-based recommender raise [ValueError] on a square similarity
    matrix, whatever the number asked for: the lookup yields a sub-series
    and [sorted] compares rows of two entries or more. *)
Theorem shared_title_raises (movies_df : list Movies.row)
    (similarity_matrix : list (list Q)) (t : string) (k : Z) :
  (2 <= count_occ string_dec (map Movies.title movies_df) t)%nat ->
  length similarity_matrix = length movies_df ->
  Forall (fun row => length row = length movies_df) similarity_matrix ->
  get_content_based_recommendations t movies_df similarity_matrix
    (load_data_indices movies_df) k = Raise ValueError.
Proof.
  intros Hcount Hrows _.
  pose proof (load_data_indices_entries movies_df t) as Hlen.
  pose proof (load_data_indices_positions movies_df t) as Hpos.
  unfold get_content_based_recommendations, series_contains, series_getitem.
  destruct (filter (fun e => String.eqb (fst e) t)
              (load_data_indices movies_df)) as [| e [| e' es]] eqn:E;
    simpl in Hlen; try lia.
  assert (He : In e (filter (fun e => String.eqb (fst e) t)
                       (load_data_indices movies_df)))
    by (rewrite E; left; reflexivity).
  apply filter_In in He.
  replace (existsb _ (load_data_indices movies_df)) with true
    by (symmetry; apply existsb_exists; exists e; exact He).
  cbn [negb map bind].
  rewrite (mapM_getitem similarity_matrix []).
  - reflexivity.
  - apply Forall_forall. intros i Hi.
    apply Hpos in Hi.
    assert (i < length (map Movies.title movies_df))%nat
      by (apply nth_error_Some; congruence).
    rewrite length_map in *. lia.
Qed.

Lemma shared_title_raises_witness :
  get_content_based_recommendations "Chasing Amy" catalog_twins
    similarity_twins (load_data_indices catalog_twins) 3 = Raise ValueError.
Proof.
  apply (shared_title_raises catalog_twins similarity_twins "Chasing Amy" 3).
  - vm_compute. lia.
  - reflexivity.
  - repeat constructor.
Defined.

(** ** The ranking of the content-based recommender *)

Lemma mapM_length {A B : Type} (f : A -> result B) (l : list A) (out : list B) :
  mapM f l = Ok out -> length out = length l.
Proof.
  revert out. induction l as [| a l IH]; simpl; intros out H.
  - injection H as <-. reflexivity.
  - apply bind_Ok in H. destruct H as (b & _ & H).
    apply bind_Ok in H. destruct H as (bs & Hbs & H).
    injection H as <-. simpl. rewrite (IH bs Hbs). reflexivity.
Qed.

(** The result for a title with a single entry, whatever the sign of the
    number asked for. *)
Lemma content_based_result_any (title : string) (movies_df : list Movies.row)
    (similarity_matrix : list (list Q)) (indices : Series string nat)
    (k : Z) (i : nat) (row : list Q) :
  series_getitem title indices = Ok (Scalar i) ->
  nth_error similarity_matrix i = Some row ->
  length row = length movies_df ->
  get_content_based_recommendations title movies_df similarity_matrix indices k
  = Ok (map (fun e => nth (fst e) (map Movies.title movies_df) "")
          (py_slice 1 (k + 1) (sorted_desc (enumerate row)))).
Proof.
  intros Hidx Hrow Hlen.
  unfold get_content_based_recommendations.
  rewrite (series_getitem_scalar_contains _ _ _ Hidx). cbn [negb].
  rewrite Hidx. cbn [bind]. unfold getitem at 1. rewrite Hrow. cbn [bind].
  rewrite (mapM_getitem _ "").
  - rewrite map_map. reflexivity.
  - apply Forall_forall. intros j Hj.
    apply in_map_iff in Hj. destruct Hj as (e & <- & He).
    apply py_slice_In in He.
    apply (in_map fst) in He.
    apply (Permutation_in _ (ranked_positions_perm row)) in He.
    apply in_seq in He. rewrite length_map, <- Hlen. lia.
Qed.

Lemma StronglySorted_firstn {A : Type} (R : A -> A -> Prop) (n : nat)
    (l : list A) :
  StronglySorted R l -> StronglySorted R (firstn n l).
Proof.
  revert n. induction l as [| a l IH]; intros [| n] H; simpl;
    try constructor.
  - apply IH. inversion H; assumption.
  - inversion H as [| ? ? _ Hall]; subst.
    rewrite Forall_forall in *. intros x Hx. apply Hall.
    apply (In_firstn n), Hx.
Qed.

Lemma StronglySorted_skipn {A : Type} (R : A -> A -> Prop) (n : nat)
    (l : list A) :
  StronglySorted R l -> StronglySorted R (skipn n l).
Proof.
  revert l. induction n as [| n IH]; intros [| a l] H; simpl;
    try assumption.
  apply IH. inversion H; assumption.
Qed.

Lemma py_slice_StronglySorted {A : Type} (R : A -> A -> Prop)
    (start stop : Z) (l : list A) :
  StronglySorted R l -> StronglySorted R (py_slice start stop l).
Proof.
  destruct (py_slice_parts start stop l) as (n & m & ->).
  intros H. apply StronglySorted_firstn, StronglySorted_skipn, H.
Qed.

Lemma enumerate_ascending {A : Type} (l : list A) :
  StronglySorted (fun a b : nat * A => (fst a < fst b)%nat) (enumerate l).
Proof.
  unfold enumerate. generalize 0%nat.
  induction l as [| a l IH]; intros start; simpl; constructor.
  - apply IH.
  - apply Forall_forall. intros [j b] H.
    apply in_combine_l, in_seq in H. simpl. lia.
Qed.

Lemma insert_desc_ranked (x : nat * Q) (s : list (nat * Q)) :
  StronglySorted ranks_before s ->
  Forall (fun y => (fst x < fst y)%nat) s ->
  StronglySorted ranks_before (insert_desc x s).
Proof.
  induction 1 as [| y s Hs IH Hy]; intros Hx; simpl.
  - repeat constructor.
  - inversion Hx as [| ? ? Hxy Hxs]; subst.
    destruct (Qle_bool (snd y) (snd x)) eqn:E.
    + apply Qle_bool_iff in E.
      constructor; [constructor; assumption |].
      assert (Hle : forall z, In z (y :: s) -> (snd z <= snd x)%Q).
      { intros z [<- | Hz]; [exact E |].
        rewrite Forall_forall in Hy. specialize (Hy z Hz).
        apply Qle_trans with (snd y); [| exact E].
        destruct Hy as [Hlt | [Heq _]];
          [apply Qlt_le_weak, Hlt | rewrite Heq; apply Qle_refl]. }
      apply Forall_forall. intros z Hz.
      rewrite Forall_forall in Hx. specialize (Hx z Hz).
      specialize (Hle z Hz).
      apply Qle_lteq in Hle. destruct Hle as [Hlt | Heq].
      * left. exact Hlt.
      * right. split; assumption.
    + assert (Hlt : (snd x < snd y)%Q).
      { apply Qnot_le_lt. intros Hle. apply Qle_bool_iff in Hle. congruence. }
      constructor; [apply IH, Hxs |].
      apply Forall_forall. intros z Hz.
      apply (Permutation_in _ (insert_desc_perm x s)) in Hz.
      destruct Hz as [<- | Hz].
      * left. exact Hlt.
      * rewrite Forall_forall in Hy. apply Hy, Hz.
Qed.

(** The stable sort ranks by score, and rows of equal score by position. *)
Lemma sorted_desc_ranked (row : list Q) :
  StronglySorted ranks_before (sorted_desc (enumerate row)).
Proof.
  pose proof (enumerate_ascending row) as H.
  induction H as [| x l Hl IH Hx]; simpl.
  - constructor.
  - apply insert_desc_ranked; [exact IH |].
    apply Forall_forall. intros y Hy.
    apply (Permutation_in _ (sorted_desc_perm l)) in Hy.
    rewrite Forall_forall in Hx. apply Hx, Hy.
Qed.

(** X3: the titles of the content-based recommender come in rank order:
    each returned row scores at least as much as the rows after it, and of
    two returned rows with equal scores the one earlier in the catalog comes
    first. *)
Theorem content_based_rank_order (title : string)
    (movies_df : list Movies.row) (similarity_matrix : list (list Q))
    (indices : Series string nat) (k : Z) (i : nat) (row : list Q) :
  series_getitem title indices = Ok (Scalar i) ->
  nth_error similarity_matrix i = Some row ->
  length row = length movies_df ->
  exists ranked : list (nat * Q),
    get_content_based_recommendations title movies_df similarity_matrix
      indices k
    = Ok (map (fun e => nth (fst e) (map Movies.title movies_df) "") ranked)
    /\ StronglySorted ranks_before ranked
    /\ (forall e, In e ranked -> nth_error row (fst e) = Some (snd e)).
Proof.
  intros Hidx Hrow Hlen.
  exists (py_slice 1 (k + 1) (sorted_desc (enumerate row))).
  split; [apply (content_based_result_any _ _ _ _ _ i row); assumption |].
  split.
  - apply py_slice_StronglySorted, sorted_desc_ranked.
  - intros [j s] He. apply py_slice_In in He.
    apply (Permutation_in _ (sorted_desc_perm _)) in He.
    apply enumerate_In, He.
Qed.

Lemma content_based_rank_order_witness :
  exists ranked : list (nat * Q),
    get_content_based_recommendations "Second Drama" catalog_dramas
      similarity_dramas (load_data_indices catalog_dramas) 2
    = Ok (map (fun e => nth (fst e) (map Movies.title catalog_dramas) "")
            ranked)
    /\ StronglySorted ranks_before ranked
    /\ (forall e, In e ranked ->
          nth_error (nth 1 similarity_dramas []) (fst e) = Some (snd e)).
Proof.
  apply (content_based_rank_order "Second Drama" catalog_dramas
           similarity_dramas (load_data_indices catalog_dramas) 2 1%nat
           (nth 1 similarity_dramas [])); reflexivity.
Defined.

Lemma py_slice_tail_negative {A : Type} (k : Z) (l : list A) :
  k <= 0 ->
  py_slice 1 (k + 1) l
  = firstn (Z.to_nat (if k <? -1 then Z.of_nat (length l) + k else 0)) (tl l).
Proof.
  intros Hk. unfold py_slice, slice_bound.
  replace (1 <? 0) with false by reflexivity.
  destruct l as [| a l].
  - simpl. destruct (k + 1 <? 0); simpl; rewrite firstn_nil;
      destruct (Z.to_nat _); reflexivity.
  - replace (Z.min 1 (Z.of_nat (length (a :: l)))) with 1
      by (simpl length; lia).
    simpl skipn. simpl tl. f_equal.
    destruct (k + 1 <? 0) eqn:E1; destruct (k <? -1) eqn:E2;
      try (apply Z.ltb_lt in E1); try (apply Z.ltb_ge in E1);
      try (apply Z.ltb_lt in E2); try (apply Z.ltb_ge in E2); lia.
Qed.

(** X4: a number of recommendations that is not positive is not refused.
    With 0 or -1 the slice is empty; with [k <= -2] the slice [[1:k+1]] counts
    from the end and the recommender returns [n + k] titles, all rows but the
    first-ranked one and the last [-k - 1]. *)
Theorem content_based_nonpositive_count (title : string)
    (movies_df : list Movies.row) (similarity_matrix : list (list Q))
    (indices : Series string nat) (k : Z) (i : nat) (row : list Q) :
  series_getitem title indices = Ok (Scalar i) ->
  nth_error similarity_matrix i = Some row ->
  length row = length movies_df ->
  k <= 0 ->
  exists out,
    get_content_based_recommendations title movies_df similarity_matrix
      indices k = Ok out
    /\ length out
       = Z.to_nat (if k <? -1 then Z.of_nat (length movies_df) + k else 0).
Proof.
  intros Hidx Hrow Hlen Hk.
  eexists. split; [apply (content_based_result_any _ _ _ _ _ i row);
                   assumption |].
  rewrite length_map, py_slice_tail_negative by exact Hk.
  rewrite length_firstn, length_tl.
  rewrite (Permutation_length (sorted_desc_perm _)).
  unfold enumerate. rewrite length_combine, length_seq, Nat.min_id, Hlen.
  destruct (k <? -1) eqn:E; [apply Z.ltb_lt in E | apply Z.ltb_ge in E]; lia.
Qed.

Lemma content_based_nonpositive_count_witness :
  exists out,
    get_content_based_recommendations "Alpha" catalog_abc similarity_abc
      (load_data_indices catalog_abc) (-2) = Ok out
    /\ length out
       = Z.to_nat (if -2 <? -1 then Z.of_nat (length catalog_abc) + -2 else 0).
Proof.
  apply (content_based_nonpositive_count "Alpha" catalog_abc similarity_abc
           (load_data_indices catalog_abc) (-2) 0%nat
           (nth 0 similarity_abc [])); try reflexivity.
  lia.
Defined.

Example similar_to_alpha_minus_2 :
  get_content_based_recommendations "Alpha" catalog_abc similarity_abc
    (load_data_indices catalog_abc) (-2) = Ok ["Beta"].
Proof. reflexivity. Qed.

Lemma NoDup_map_nth {A : Type} (l : list A) (d : A) (positions : list nat) :
  NoDup l -> NoDup positions ->
  Forall (fun j => (j < length l)%nat) positions ->
  NoDup (map (fun j => nth j l d) positions).
Proof.
  intros Hl. induction 1 as [| j positions Hj _ IH]; intros Hrange; simpl.
  - constructor.
  - inversion Hrange as [| ? ? Hjl Hrest]; subst.
    constructor; [| apply IH, Hrest].
    intros Hin. apply in_map_iff in Hin. destruct Hin as (j' & E & Hj').
    rewrite Forall_forall in Hrest.
    apply (proj1 (NoDup_nth l d) Hl j' j (Hrest j' Hj') Hjl) in E.
    subst j'. contradiction.
Qed.

(** X5: with the index that [load_data] builds for a catalog of distinct
    titles and a square similarity matrix, every catalog title gets
    [min(k, n - 1)] recommendations, pairwise distinct titles of the
    catalog, and nothing is raised. *)
Theorem content_based_on_distinct_titles (movies_df : list Movies.row)
    (similarity_matrix : list (list Q)) (title : string) (k : Z) :
  NoDup (map Movies.title movies_df) ->
  In title (map Movies.title movies_df) ->
  length similarity_matrix = length movies_df ->
  Forall (fun row => length row = length movies_df) similarity_matrix ->
  0 <= k ->
  exists out,
    get_content_based_recommendations title movies_df similarity_matrix
      (load_data_indices movies_df) k = Ok out
    /\ length out = Nat.min (Z.to_nat k) (length movies_df - 1)
    /\ NoDup out
    /\ incl out (map Movies.title movies_df).
Proof.
  intros Htitles Hin Hrows Hcols Hk.
  assert (Hcount : count_occ string_dec (map Movies.title movies_df) title
                   = 1%nat)
    by (apply NoDup_count_occ'; assumption).
  destruct (unique_title_position movies_df title Hcount) as (i & Hidx & Hi).
  assert (Hlt : (i < length similarity_matrix)%nat).
  { rewrite Hrows. apply nth_error_Some.
    destruct (nth_error movies_df i); [discriminate | discriminate Hi]. }
  destruct (nth_error similarity_matrix i) as [row |] eqn:Hrow;
    [| apply nth_error_None in Hrow; lia].
  assert (Hlen : length row = length movies_df).
  { rewrite Forall_forall in Hcols. apply Hcols, (nth_error_In _ _ Hrow). }
  destruct (content_based_bounds title movies_df similarity_matrix
              (load_data_indices movies_df) k i row Hidx Hrow Hlen Hk)
    as (positions & Hout & Hnd & Hrange & Hcount' & _).
  eexists. split; [exact Hout |].
  split; [rewrite length_map; exact Hcount' | split].
  - apply NoDup_map_nth; try assumption.
    rewrite length_map. exact Hrange.
  - intros t Ht. apply in_map_iff in Ht. destruct Ht as (j & <- & Hj).
    rewrite Forall_forall in Hrange. apply nth_In.
    rewrite length_map. apply Hrange, Hj.
Qed.

Lemma catalog_abc_titles_distinct : NoDup (map Movies.title catalog_abc).
Proof.
  simpl. repeat constructor; simpl; intuition discriminate.
Qed.

Lemma content_based_on_distinct_titles_witness :
  exists out,
    get_content_based_recommendations "Beta" catalog_abc similarity_abc
      (load_data_indices catalog_abc) 5 = Ok out
    /\ length out = Nat.min (Z.to_nat 5) (length catalog_abc - 1)
    /\ NoDup out
    /\ incl out (map Movies.title catalog_abc).
Proof.
  apply (content_based_on_distinct_titles catalog_abc similarity_abc "Beta" 5).
  - exact catalog_abc_titles_distinct.
  - simpl. tauto.
  - reflexivity.
  - repeat constructor.
  - lia.
Defined.

(** X6: with the index that [load_data] builds for a catalog of distinct
    titles, a query movie whose own score is strictly the largest of its
    row of the similarity matrix is removed by the slice [[1:k+1]]: its
    title is not among its recommendations. *)
Theorem strictly_best_title_is_left_out (movies_df : list Movies.row)
    (similarity_matrix : list (list Q)) (k : Z) (i : nat) (m : Movies.row)
    (row : list Q) (s : Q) :
  NoDup (map Movies.title movies_df) ->
  nth_error movies_df i = Some m ->
  nth_error similarity_matrix i = Some row ->
  length row = length movies_df ->
  0 <= k ->
  nth_error row i = Some s ->
  (forall j s', nth_error row j = Some s' -> j <> i -> (s' < s)%Q) ->
  exists out,
    get_content_based_recommendations (Movies.title m) movies_df
      similarity_matrix (load_data_indices movies_df) k = Ok out
    /\ ~ In (Movies.title m) out.
Proof.
  intros Htitles Hm Hrow Hlen Hk Hs Hbest.
  assert (Ht : nth_error (map Movies.title movies_df) i
               = Some (Movies.title m))
    by (rewrite nth_error_map, Hm; reflexivity).
  assert (Hcount : count_occ string_dec (map Movies.title movies_df)
                     (Movies.title m) = 1%nat)
    by (apply NoDup_count_occ'; [assumption | apply (nth_error_In _ _ Ht)]).
  destruct (unique_title_position movies_df _ Hcount) as (i' & Hidx & Hi').
  assert (E : i' = i).
  { rewrite <- nth_error_map in Hi'.
    apply (proj1 (NoDup_nth_error _) Htitles).
    - apply nth_error_Some. rewrite Hi'. discriminate.
    - rewrite Hi', Ht. reflexivity. }
  subst i'.
  apply (strictly_best_query_is_left_out _ _ _ _ k i row s); assumption.
Qed.

Lemma strictly_best_title_is_left_out_witness :
  exists out,
    get_content_based_recommendations "Beta" catalog_abc similarity_abc
      (load_data_indices catalog_abc) 5 = Ok out
    /\ ~ In "Beta" out.
Proof.
  apply (strictly_best_title_is_left_out catalog_abc similarity_abc 5 1%nat
           (nth 1 catalog_abc (movie 0 "" [])) (nth 1 similarity_abc [])
           1%Q); try reflexivity.
  - exact catalog_abc_titles_distinct.
  - lia.
  - intros j s' H Hne.
    destruct j as [| [| [| j]]]; simpl in H; try congruence;
      try (injection H as <-; reflexivity).
    destruct j; discriminate H.
Defined.

(** ** More on the collaborative recommender *)





(** *** The order of the rows of the rating store *)

Lemma same_cell_key (a b : Ratings.row) :
  same_cell a b = true <-> cell_key a = cell_key b.
Proof.
  unfold same_cell, cell_key. rewrite andb_true_iff, !Z.eqb_eq.
  split; [intros [-> ->]; reflexivity | intros E; injection E; auto].
Qed.

Lemma has_duplicate_cells_false (l : list Ratings.row) :
  has_duplicate_cells l = false <-> NoDup (map cell_key l).
Proof.
  induction l as [| r l IH]; simpl.
  - split; [constructor | reflexivity].
  - rewrite orb_false_iff, IH, NoDup_cons_iff. split.
    + intros [Hex Hnd]. split; [| exact Hnd].
      intros Hin. apply in_map_iff in Hin. destruct Hin as (r' & E & Hr').
      assert (existsb (same_cell r) l = true).
      { apply existsb_exists. exists r'. split; [exact Hr' |].
        apply same_cell_key. congruence. }
      congruence.
    + intros [Hnin Hnd]. split; [| exact Hnd].
      destruct (existsb (same_cell r) l) eqn:E; [| reflexivity].
      apply existsb_exists in E. destruct E as (r' & Hr' & E).
      apply same_cell_key in E. exfalso. apply Hnin.
      rewrite E. apply in_map, Hr'.
Qed.

Lemma has_duplicate_cells_perm (l l' : list Ratings.row) :
  Permutation l l' -> has_duplicate_cells l = has_duplicate_cells l'.
Proof.
  intros Hp.
  destruct (has_duplicate_cells l) eqn:E, (has_duplicate_cells l') eqn:E';
    try reflexivity.
  - apply has_duplicate_cells_false in E'.
    apply (Permutation_NoDup (Permutation_map cell_key (Permutation_sym Hp)))
      in E'.
    apply has_duplicate_cells_false in E'. congruence.
  - apply has_duplicate_cells_false in E.
    apply (Permutation_NoDup (Permutation_map cell_key Hp)) in E.
    apply has_duplicate_cells_false in E. congruence.
Qed.

Lemma strictly_sorted_ext (l l' : list Z) :
  StronglySorted Z.lt l -> StronglySorted Z.lt l' ->
  (forall x, In x l <-> In x l') -> l = l'.
Proof.
  intros Hl. revert l'.
  induction Hl as [| a l Hl IH Ha]; intros l' Hl' Hmem.
  - destruct l' as [| b l']; [reflexivity |].
    destruct (proj2 (Hmem b) (or_introl eq_refl)).
  - destruct Hl' as [| b l' Hl' Hb].
    + destruct (proj1 (Hmem a) (or_introl eq_refl)).
    + rewrite Forall_forall in Ha, Hb.
      assert (a = b).
      { destruct (proj1 (Hmem a) (or_introl eq_refl)) as [E | Hin];
          [congruence |].
        destruct (proj2 (Hmem b) (or_introl eq_refl)) as [E | Hin'];
          [congruence |].
        specialize (Ha b Hin'). specialize (Hb a Hin). lia. }
      subst b. f_equal. apply IH; [exact Hl' |].
      intros x. split; intros Hx.
      * destruct (proj1 (Hmem x) (or_intror Hx)) as [E | Hin];
          [| exact Hin].
        subst x. specialize (Ha a Hx). lia.
      * destruct (proj2 (Hmem x) (or_intror Hx)) as [E | Hin];
          [| exact Hin].
        subst x. specialize (Hb a Hx). lia.
Qed.

Lemma sorted_unique_ext (l l' : list Z) :
  (forall x, In x l <-> In x l') -> sorted_unique l = sorted_unique l'.
Proof.
  intros H. apply strictly_sorted_ext.
  - apply (Sorted_StronglySorted Z.lt_trans), sorted_unique_sorted.
  - apply (Sorted_StronglySorted Z.lt_trans), sorted_unique_sorted.
  - intros x. rewrite !sorted_unique_In. apply H.
Qed.

Lemma cell_key_eqb (r : Ratings.row) (m u : Z) :
  (Ratings.movie_id r =? m) && (Ratings.user_id r =? u) = true
  <-> cell_key r = (m, u).
Proof.
  unfold cell_key. rewrite andb_true_iff, !Z.eqb_eq.
  split; [intros [-> ->]; reflexivity | intros E; injection E; auto].
Qed.

Lemma cell_perm (l l' : list Ratings.row) (m u : Z) :
  Permutation l l' -> NoDup (map cell_key l) -> cell l m u = cell l' m u.
Proof.
  intros Hp Hnd. unfold cell.
  set (p := fun r => (Ratings.movie_id r =? m) && (Ratings.user_id r =? u)).
  destruct (find p l) as [r |] eqn:E, (find p l') as [r' |] eqn:E'.
  - apply find_some in E, E'. destruct E as [Hr Hk], E' as [Hr' Hk'].
    apply cell_key_eqb in Hk, Hk'.
    apply (Permutation_in _ (Permutation_sym Hp)) in Hr'.
    rewrite (NoDup_map_injective cell_key l r r' Hnd Hr Hr'); congruence.
  - apply find_some in E. destruct E as [Hr Hk].
    apply (Permutation_in _ Hp) in Hr.
    rewrite (find_none _ _ E' r Hr) in Hk. discriminate Hk.
  - apply find_some in E'. destruct E' as [Hr' Hk'].
    apply (Permutation_in _ (Permutation_sym Hp)) in Hr'.
    rewrite (find_none _ _ E r' Hr') in Hk'. discriminate Hk'.
  - reflexivity.
Qed.

Lemma pivot_fillna_perm (l l' : list Ratings.row) :
  Permutation l l' -> pivot_fillna l = pivot_fillna l'.
Proof.
  intros Hp. unfold pivot_fillna.
  rewrite <- (has_duplicate_cells_perm l l' Hp).
  destruct (has_duplicate_cells l) eqn:E; [reflexivity |].
  apply has_duplicate_cells_false in E.
  assert (Hm : sorted_unique (map Ratings.movie_id l)
               = sorted_unique (map Ratings.movie_id l')).
  { apply sorted_unique_ext. intros x.
    split; apply Permutation_in, Permutation_map;
      [exact Hp | apply Permutation_sym, Hp]. }
  assert (Hu : sorted_unique (map Ratings.user_id l)
               = sorted_unique (map Ratings.user_id l')).
  { apply sorted_unique_ext. intros x.
    split; apply Permutation_in, Permutation_map;
      [exact Hp | apply Permutation_sym, Hp]. }
  rewrite <- Hm, <- Hu. do 2 f_equal.
  apply map_ext. intros m. apply map_ext. intros u.
  apply cell_perm; assumption.
Qed.

Lemma drop_rated_perm (user_id : Z) (l l' : list Ratings.row)
    (s : Series Z Q) :
  Permutation l l' ->
  drop (rated_movies user_id l) s = drop (rated_movies user_id l') s.
Proof.
  intros Hp. unfold drop. apply filter_ext. intros e. f_equal.
  apply eq_true_iff_eq. rewrite !Z_in_In, !rated_movies_In.
  split; intros (r & Hr & H); exists r; split; try exact H.
  - apply (Permutation_in _ Hp), Hr.
  - apply (Permutation_in _ (Permutation_sym Hp)), Hr.
Qed.

(** X8: the recommendations do not depend on the order of the rows of the
    rating store: two stores with the same rows in a different order give
    the same result, be it a list or an exception. *)
Theorem collaborative_ratings_order {N : Numerics} (user_id : Z)
    (ratings_df ratings_df' : list Ratings.row)
    (movies_df : list Movies.row) (k : Z) :
  Permutation ratings_df ratings_df' ->
  get_collaborative_recommendations user_id ratings_df movies_df k
  = get_collaborative_recommendations user_id ratings_df' movies_df k.
Proof.
  intros Hp. unfold get_collaborative_recommendations.
  rewrite (pivot_fillna_perm _ _ Hp).
  destruct (pivot_fillna ratings_df') as [pv | e]; [| reflexivity].
  cbn [bind].
  destruct (fit_transform (values pv)) as [X | e]; [| reflexivity].
  cbn [bind].
  destruct (loc_column pv user_id) as [ur | e]; [| reflexivity].
  cbn [bind].
  destruct (new_series _ (index pv)) as [s | e]; [| reflexivity].
  cbn [bind].
  rewrite (drop_rated_perm user_id _ _ _ Hp). reflexivity.
Qed.

Lemma collaborative_ratings_order_witness :
  @get_collaborative_recommendations dot_numerics 1 ratings_grid
    catalog_grid 5
  = @get_collaborative_recommendations dot_numerics 1 (rev ratings_grid)
      catalog_grid 5.
Proof.
  apply (@collaborative_ratings_order dot_numerics 1 ratings_grid
           (rev ratings_grid) catalog_grid 5).
  apply Permutation_rev.
Defined.

(** ** The lookups of the page around the recommenders *)

Lemma movie_info_of_title (movies_df : list Movies.row) (t : string) :
  In t (map Movies.title movies_df) ->
  exists m, movie_info movies_df t = Ok m
            /\ In m movies_df /\ Movies.title m = t.
Proof.
  intros Hin. apply in_map_iff in Hin. destruct Hin as (m0 & E & Hm0).
  unfold movie_info, getitem.
  destruct (filter (fun m => String.eqb (Movies.title m) t) movies_df)
    as [| m ms] eqn:Ef.
  - assert (H : In m0 (filter (fun m => String.eqb (Movies.title m) t)
                         movies_df))
      by (apply filter_In; split; [exact Hm0 | apply String.eqb_eq, E]).
    rewrite Ef in H. destruct H.
  - exists m. split; [reflexivity |].
    assert (H : In m (filter (fun m => String.eqb (Movies.title m) t)
                        movies_df)) by (rewrite Ef; left; reflexivity).
    apply filter_In in H. destruct H as [H Et].
    apply String.eqb_eq in Et. auto.
Qed.

Lemma mapM_getitem_In {A : Type} (l : list A) (positions : list nat)
    (out : list A) :
  mapM (getitem l) positions = Ok out -> incl out l.
Proof.
  revert out. induction positions as [| i positions IH]; simpl; intros out H.
  - injection H as <-. intros x [].
  - apply bind_Ok in H. destruct H as (a & Ha & H).
    apply bind_Ok in H. destruct H as (rest & Hrest & H).
    injection H as <-.
    unfold getitem in Ha.
    destruct (nth_error l i) as [b |] eqn:E; [| discriminate Ha].
    injection Ha as ->.
    intros x [<- | Hx]; [apply (nth_error_In _ _ E) | apply (IH rest Hrest x Hx)].
Qed.

Lemma content_based_titles (title : string) (movies_df : list Movies.row)
    (similarity_matrix : list (list Q)) (indices : Series string nat) (k : Z)
    (out : list string) :
  get_content_based_recommendations title movies_df similarity_matrix indices
    k = Ok out ->
  incl out (map Movies.title movies_df).
Proof.
  unfold get_content_based_recommendations.
  destruct (negb (series_contains title indices)).
  - intros H. injection H as <-. intros x [].
  - intros H. apply bind_Ok in H. destruct H as ([i | vs] & _ & H).
    + apply bind_Ok in H. destruct H as (row & _ & H).
      apply (mapM_getitem_In _ _ _ H).
    + apply bind_Ok in H. destruct H as (? & _ & H). discriminate H.
Qed.

Lemma collaborative_titles {N : Numerics} (user_id : Z)
    (ratings_df : list Ratings.row) (movies_df : list Movies.row) (k : Z)
    (out : list string) :
  get_collaborative_recommendations user_id ratings_df movies_df k = Ok out ->
  incl out (map Movies.title movies_df).
Proof.
  rewrite get_collaborative_recommendations_top. intros H.
  apply bind_Ok in H. destruct H as (top & _ & H). injection H as <-.
  intros t Ht. apply in_map_iff in Ht. destruct Ht as (m & <- & Hm).
  apply filter_In in Hm. apply in_map. tauto.
Qed.

(** X9: the page looks up the details of every recommended title with
    [movies_df[movies_df['title'] == movie].iloc[0]].  For every title that
    either recommender returns this lookup finds a row, so it never raises
    [IndexError]; the row it finds is the first one bearing the title. *)
Theorem details_of_recommended_titles {N : Numerics} (user_id : Z)
    (title : string) (ratings_df : list Ratings.row)
    (movies_df : list Movies.row) (similarity_matrix : list (list Q))
    (indices : Series string nat) (k : Z) (out : list string) (t : string) :
  get_collaborative_recommendations user_id ratings_df movies_df k = Ok out
  \/ get_content_based_recommendations title movies_df similarity_matrix
       indices k = Ok out ->
  In t out ->
  exists m, movie_info movies_df t = Ok m
            /\ In m movies_df /\ Movies.title m = t.
Proof.
  intros [H | H] Ht; apply movie_info_of_title.
  - apply (collaborative_titles _ _ _ _ _ H), Ht.
  - apply (content_based_titles _ _ _ _ _ _ H), Ht.
Qed.

Lemma details_of_recommended_titles_witness :
  exists m, movie_info catalog_abc "Beta" = Ok m
            /\ In m catalog_abc /\ Movies.title m = "Beta".
Proof.
  apply (@details_of_recommended_titles dot_numerics 1 "Alpha" [] catalog_abc
           similarity_abc (load_data_indices catalog_abc) 1 ["Beta"] "Beta").
  - right. reflexivity.
  - left. reflexivity.
Defined.

(** *** The most active user *)

Lemma unique_NoDup (l : list Z) : NoDup (unique l).
Proof.
  induction l as [| a l IH]; simpl.
  - constructor.
  - constructor; [| apply NoDup_filter, IH].
    intros H. apply filter_In in H. destruct H as [_ H].
    rewrite Z.eqb_refl in H. discriminate H.
Qed.

(** X10: on a rating store that is not empty the "Top Rated User" choice
    returns a user of the store, one with the largest number of ratings, so
    the recommender called with it finds the user's column and returns a
    list whenever the ratings can be factorised. *)
Theorem top_rated_user_has_ratings {N : Numerics}
    (ratings_df : list Ratings.row) (movies_df : list Movies.row) (k : Z) :
  ratings_df <> [] ->
  exists u,
    top_rated_user ratings_df = Ok u
    /\ In u (map Ratings.user_id ratings_df)
    /\ (forall u',
          (count_occ Z.eq_dec (map Ratings.user_id ratings_df) u'
           <= count_occ Z.eq_dec (map Ratings.user_id ratings_df) u)%nat)
    /\ (factorisable ratings_df ->
        exists out,
          get_collaborative_recommendations u ratings_df movies_df k
          = Ok out).
Proof.
  intros Hne.
  set (users := map Ratings.user_id ratings_df).
  set (counted :=
         map (fun u => (u, inject_Z (Z.of_nat (count_occ Z.eq_dec users u))))
           (unique users)).
  pose proof (sort_values_perm counted) as Hperm.
  pose proof (sort_values_sorted counted) as Hsorted.
  unfold top_rated_user, value_counts. fold users. fold counted.
  assert (Hentry : forall e, In e (sort_values_descending counted) ->
            In (fst e) users
            /\ snd e = inject_Z (Z.of_nat (count_occ Z.eq_dec users (fst e)))).
  { intros e He. apply (Permutation_in _ Hperm) in He.
    apply in_map_iff in He. destruct He as (u & <- & Hu).
    apply (proj1 (unique_In _ _)) in Hu. split; [exact Hu | reflexivity]. }
  destruct (sort_values_descending counted) as [| [u c] rest] eqn:Es.
  - exfalso. apply Permutation_nil in Hperm.
    unfold counted, users in Hperm. clear - Hperm Hne.
    destruct ratings_df as [| r l]; [contradiction |].
    discriminate Hperm.
  - exists u. cbn [getitem nth_error bind fst].
    destruct (Hentry (u, c) (or_introl eq_refl)) as [Hu Hc]. simpl in Hu, Hc.
    split; [reflexivity | split; [exact Hu | split]].
    + intros u'.
      destruct (in_dec Z.eq_dec u' users) as [Hin | Hnin].
      * assert (He : In (u', inject_Z (Z.of_nat (count_occ Z.eq_dec users u')))
                       ((u, c) :: rest)).
        { apply (Permutation_in _ (Permutation_sym Hperm)).
          apply in_map_iff. exists u'. split; [reflexivity |].
          apply unique_In, Hin. }
        destruct He as [E | He].
        -- injection E as -> _. lia.
        -- inversion Hsorted as [| ? ? _ Hall]; subst.
           rewrite Forall_forall in Hall. specialize (Hall _ He).
           unfold score_ge in Hall. simpl in Hall.
           rewrite <- Zle_Qle in Hall. lia.
      * apply (count_occ_not_In Z.eq_dec) in Hnin. rewrite Hnin. lia.
    + intros Hf.
      destruct (collaborative_result u ratings_df movies_df k Hf Hu)
        as (top & _ & Hout).
      eauto.
Qed.

Lemma ratings_grid_not_empty : ratings_grid <> [].
Proof. vm_compute. discriminate. Qed.

Lemma top_rated_user_has_ratings_witness :
  exists u,
    @top_rated_user dot_numerics ratings_grid = Ok u
    /\ In u (map Ratings.user_id ratings_grid)
    /\ (forall u',
          (count_occ Z.eq_dec (map Ratings.user_id ratings_grid) u'
           <= count_occ Z.eq_dec (map Ratings.user_id ratings_grid) u)%nat)
    /\ (@factorisable dot_numerics ratings_grid ->
        exists out,
          @get_collaborative_recommendations dot_numerics u ratings_grid
            catalog_grid 5 = Ok out).
Proof.
  exact (@top_rated_user_has_ratings dot_numerics ratings_grid catalog_grid 5
           ratings_grid_not_empty).
Defined.

(** ** The hybrid branch on the sliders of the page *)

Lemma append_unseen_incl (hybrid_recs content : list string) :
  incl (append_unseen hybrid_recs content) (hybrid_recs ++ content).
Proof.
  rewrite append_unseen_spec. intros t Ht.
  apply in_app_or in Ht. apply in_or_app.
  destruct Ht as [Ht | Ht]; [left; exact Ht | right].
  apply first_occurrences_In, filter_In in Ht. tauto.
Qed.

Lemma append_unseen_length (hybrid_recs content : list string) :
  (length (append_unseen hybrid_recs content)
   <= length hybrid_recs + length content)%nat.
Proof.
  rewrite append_unseen_spec, length_app.
  pose proof (first_occurrences_length
                (filter (fun t => negb (str_in t hybrid_recs)) content)).
  pose proof (filter_length_le (fun t => negb (str_in t hybrid_recs)) content).
  lia.
Qed.

(** X11: on every position of the two sliders (3 to 15 recommendations, a
    weight from 0.0 to 1.0 in steps of 0.1) the merge is computed without an
    exception, returns at most [k] titles, and every title comes from one of
    the two lists. *)
Theorem hybrid_merge_on_sliders (collab_recs content_recs : list string)
    (k : Z) (weight : float) :
  In k slider_counts ->
  In weight slider_weights ->
  exists hybrid_recs,
    hybrid_merge collab_recs content_recs k weight = Ok hybrid_recs
    /\ Z.of_nat (length hybrid_recs) <= k
    /\ incl hybrid_recs (collab_recs ++ content_recs).
Proof.
  intros Hk Hw.
  destruct (collab_count_on_sliders k weight Hk Hw) as (c & Hc & Hc0 & Hck).
  unfold hybrid_merge. rewrite Hc. cbn [bind].
  eexists. split; [reflexivity | split].
  - pose proof (append_unseen_length (py_slice 0 c collab_recs)
                  (py_slice 0 (k - c) content_recs)) as Hlen.
    pose proof (length_py_slice_prefix c collab_recs Hc0).
    pose proof (length_py_slice_prefix (k - c) content_recs ltac:(lia)).
    lia.
  - intros t Ht. apply append_unseen_incl in Ht.
    apply in_app_or in Ht. apply in_or_app.
    destruct Ht as [Ht | Ht]; apply py_slice_In in Ht; auto.
Qed.

Lemma hybrid_merge_on_sliders_witness :
  exists hybrid_recs,
    hybrid_merge ["a"; "b"; "c"] ["c"; "d"; "e"] 3 0.5%float = Ok hybrid_recs
    /\ Z.of_nat (length hybrid_recs) <= 3
    /\ incl hybrid_recs (["a"; "b"; "c"] ++ ["c"; "d"; "e"]).
Proof.
  apply (hybrid_merge_on_sliders ["a"; "b"; "c"] ["c"; "d"; "e"] 3 0.5%float).
  - simpl. tauto.
  - simpl. tauto.
Defined.

Lemma content_based_length (title : string) (movies_df : list Movies.row)
    (similarity_matrix : list (list Q)) (indices : Series string nat) (k : Z)
    (out : list string) :
  get_content_based_recommendations title movies_df similarity_matrix indices
    k = Ok out ->
  0 <= k ->
  (length out <= Z.to_nat k)%nat.
Proof.
  unfold get_content_based_recommendations. intros H Hk.
  destruct (negb (series_contains title indices)).
  - injection H as <-. simpl. lia.
  - apply bind_Ok in H. destruct H as ([i | vs] & _ & H).
    + apply bind_Ok in H. destruct H as (row & _ & H).
      apply mapM_length in H. rewrite H, length_map.
      rewrite py_slice_tail by exact Hk. apply firstn_le_length.
    + apply bind_Ok in H. destruct H as (? & _ & H). discriminate H.
Qed.

Lemma collaborative_length {N : Numerics} (user_id : Z)
    (ratings_df : list Ratings.row) (movies_df : list Movies.row) (k : Z)
    (out : list string) :
  get_collaborative_recommendations user_id ratings_df movies_df k = Ok out ->
  NoDup (map Movies.movie_id movies_df) ->
  0 <= k ->
  (length out <= Z.to_nat k)%nat.
Proof.
  rewrite get_collaborative_recommendations_top. intros H Hids Hk.
  apply bind_Ok in H. destruct H as (top & Htop & H). injection H as <-.
  rewrite length_map.
  pose proof (length_filter_isin movies_df top Hids).
  destruct (top_recommendations_sound user_id ratings_df k top Htop)
    as (_ & _ & Hlen).
  specialize (Hlen Hk). lia.
Qed.

Lemma collab_count_at_the_ends (k : Z) :
  In k slider_counts ->
  collab_count k 0.0%float = Ok k /\ collab_count k 1.0%float = Ok 0.
Proof.
  intros Hk.
  assert (H : forallb
                (fun k => match collab_count k 0.0%float,
                                collab_count k 1.0%float with
                          | Ok a, Ok b => (a =? k) && (b =? 0)
                          | _, _ => false
                          end) slider_counts = true)
    by (vm_compute; reflexivity).
  rewrite forallb_forall in H. specialize (H k Hk).
  destruct (collab_count k 0.0%float) as [a | ?]; [| discriminate H].
  destruct (collab_count k 1.0%float) as [b | ?]; [| discriminate H].
  apply andb_true_iff in H. destruct H as [Ha Hb].
  apply Z.eqb_eq in Ha, Hb. subst. auto.
Qed.

Lemma filter_unseen_nil (content : list string) :
  filter (fun t => negb (str_in t [])) content = content.
Proof. apply filter_all. reflexivity. Qed.

(** X12: the two ends of the weight slider.  Both recommenders are always
    called with the full [k].  At weight 0.0 the hybrid list is the
    collaborative list as it is; at weight 1.0 it is the content-based list
    with repeated titles dropped; and whatever the weight, an exception of
    the content-based call is the outcome of the hybrid branch. *)
Theorem hybrid_at_the_ends {N : Numerics} (user_id : Z) (title : string)
    (ratings_df : list Ratings.row) (movies_df : list Movies.row)
    (similarity_matrix : list (list Q)) (indices : Series string nat)
    (k : Z) (collab_recs : list string) :
  In k slider_counts ->
  NoDup (map Movies.movie_id movies_df) ->
  get_collaborative_recommendations user_id ratings_df movies_df k
  = Ok collab_recs ->
  (forall content_recs,
      get_content_based_recommendations title movies_df similarity_matrix
        indices k = Ok content_recs ->
      recommend_hybrid user_id title ratings_df movies_df similarity_matrix
        indices k 0.0%float = Ok collab_recs
      /\ recommend_hybrid user_id title ratings_df movies_df
           similarity_matrix indices k 1.0%float
         = Ok (first_occurrences content_recs))
  /\ (forall e weight,
        get_content_based_recommendations title movies_df similarity_matrix
          indices k = Raise e ->
        recommend_hybrid user_id title ratings_df movies_df similarity_matrix
          indices k weight = Raise e).
Proof.
  intros Hk Hids Hcollab.
  assert (Hk0 : 0 <= k).
  { unfold slider_counts in Hk. apply in_map_iff in Hk.
    destruct Hk as (n & <- & _). lia. }
  destruct (collab_count_at_the_ends k Hk) as [H0 H1].
  split.
  - intros content_recs Hcontent.
    unfold recommend_hybrid, hybrid_merge.
    rewrite Hcollab, Hcontent. cbn [bind]. rewrite H0, H1. cbn [bind].
    pose proof (collaborative_length _ _ _ _ _ Hcollab Hids Hk0) as Hlc.
    pose proof (content_based_length _ _ _ _ _ _ Hcontent Hk0) as Hld.
    rewrite Z.sub_diag, Z.sub_0_r.
    rewrite !py_slice_prefix by lia.
    rewrite !(firstn_all2 (n := Z.to_nat k)) by exact Hlc || exact Hld.
    simpl firstn. split.
    + reflexivity.
    + rewrite append_unseen_spec, filter_unseen_nil. reflexivity.
  - intros e weight Hcontent.
    unfold recommend_hybrid. rewrite Hcollab, Hcontent. reflexivity.
Qed.

Lemma hybrid_at_the_ends_witness :
  (forall content_recs,
      get_content_based_recommendations "Movie 1" catalog_grid similarity_grid
        (load_data_indices catalog_grid) 5 = Ok content_recs ->
      @recommend_hybrid dot_numerics 1 "Movie 1" ratings_grid catalog_grid
        similarity_grid (load_data_indices catalog_grid) 5 0.0%float
      = Ok ["Movie 13"; "Movie 14"]
      /\ @recommend_hybrid dot_numerics 1 "Movie 1" ratings_grid catalog_grid
           similarity_grid (load_data_indices catalog_grid) 5 1.0%float
         = Ok (first_occurrences content_recs))
  /\ (forall e weight,
        get_content_based_recommendations "Movie 1" catalog_grid
          similarity_grid (load_data_indices catalog_grid) 5 = Raise e ->
        @recommend_hybrid dot_numerics 1 "Movie 1" ratings_grid catalog_grid
          similarity_grid (load_data_indices catalog_grid) 5 weight
        = Raise e).
Proof.
  apply (@hybrid_at_the_ends dot_numerics 1 "Movie 1" ratings_grid
           catalog_grid similarity_grid (load_data_indices catalog_grid) 5
           ["Movie 13"; "Movie 14"]).
  - simpl. tauto.
  - exact catalog_grid_ids_distinct.
  - vm_compute. reflexivity.
Defined.

(** ** More on the content similarity matrix *)

Section SimilarityMatrix.
Local Open Scope R_scope.

Lemma dot_comm (x y : list R) : Tfidf.dot x y = Tfidf.dot y x.
Proof.
  unfold Tfidf.dot. revert y.
  induction x as [| a x IH]; intros [| b y]; simpl; try reflexivity.
  rewrite IH. ring.
Qed.

Lemma cosine_comm (x y : list R) : Tfidf.cosine x y = Tfidf.cosine y x.
Proof.
  unfold Tfidf.cosine. rewrite dot_comm. f_equal. ring.
Qed.

Lemma nth_map_default {A B : Type} (f : A -> B) (l : list A) (i : nat)
    (d : B) :
  nth i (map f l) d
  = match nth_error l i with
    | Some a => f a
    | None => d
    end.
Proof.
  revert i. induction l as [| a l IH]; intros [| i]; simpl;
    try reflexivity.
  apply IH.
Qed.

(** The entry of the cosine matrix at row [i] and column [j]. *)
Lemma cosine_matrix_entry (X : list (list R)) (i j : nat) :
  nth j (nth i (Tfidf.cosine_similarity_matrix X) []) 0
  = match nth_error X i, nth_error X j with
    | Some x, Some y => Tfidf.cosine x y
    | _, _ => 0
    end.
Proof.
  unfold Tfidf.cosine_similarity_matrix.
  rewrite (nth_map_default (fun x => map (fun y => Tfidf.cosine x y) X)).
  destruct (nth_error X i) as [x |].
  - rewrite (nth_map_default (fun y => Tfidf.cosine x y)).
    reflexivity.
  - destruct j; reflexivity.
Qed.

Lemma vocabulary_not_empty (docs : list (list string)) (d : list string) :
  In d docs -> d <> [] -> Tfidf.vocabulary docs <> [].
Proof.
  intros Hd Hne E. destruct d as [| t d]; [contradiction |].
  assert (Ht : In t (Tfidf.vocabulary docs)).
  { unfold Tfidf.vocabulary. apply first_occurrences_In, in_concat.
    exists (t :: d). split; [exact Hd | left; reflexivity]. }
  rewrite E in Ht. exact Ht.
Qed.

(** The matrix of [load_data], when there is one, is the cosine matrix. *)
Lemma load_data_similarity_matrix_inv (analyzer : string -> list string)
    (movies_df : list Movies.row) (S : list (list R)) :
  load_data_similarity_matrix analyzer movies_df = Ok S ->
  S = Tfidf.cosine_similarity_matrix
        (Tfidf.corpus_weights (map analyzer (map genres movies_df))).
Proof.
  intros H.
  destruct (Tfidf.vocabulary (map analyzer (map genres movies_df)))
    as [| t v] eqn:E.
  - unfold load_data_similarity_matrix, Tfidf.fit_transform in H.
    rewrite E in H. discriminate H.
  - rewrite load_data_similarity_matrix_Ok in H
      by (cbv zeta; rewrite E; discriminate).
    injection H as <-. reflexivity.
Qed.

(** X13: the content similarity matrix is symmetric: a movie is as similar
    to another as the other is to it. *)
Theorem similarity_matrix_symmetric (analyzer : string -> list string)
    (movies_df : list Movies.row) (S : list (list R)) (i j : nat) :
  load_data_similarity_matrix analyzer movies_df = Ok S ->
  nth j (nth i S []) 0 = nth i (nth j S []) 0.
Proof.
  intros H. apply load_data_similarity_matrix_inv in H. subst S.
  rewrite !cosine_matrix_entry.
  destruct (nth_error _ i) as [x |], (nth_error _ j) as [y |];
    try reflexivity.
  apply cosine_comm.
Qed.

Lemma nonzero_norm_pos (x : list R) : 0 < Tfidf.nonzero (Tfidf.l2_norm x).
Proof.
  unfold Tfidf.nonzero, Tfidf.l2_norm.
  destruct (Req_dec_T (R_sqrt.sqrt (Tfidf.dot x x)) 0) as [_ | E]; [lra |].
  pose proof (sqrt_pos (Tfidf.dot x x)). lra.
Qed.

Lemma dot_nonneg (x y : list R) :
  Forall (fun v => 0 <= v) x -> Forall (fun v => 0 <= v) y ->
  0 <= Tfidf.dot x y.
Proof.
  unfold Tfidf.dot. intros Hx. revert y.
  induction Hx as [| a x Ha _ IH]; intros y Hy; simpl; [lra |].
  destruct Hy as [| b y Hb Hy]; simpl; [lra |].
  specialize (IH y Hy). nra.
Qed.

Lemma weights_nonneg (docs : list (list string)) (d : list string) :
  Forall (fun v => 0 <= v) (Tfidf.weights docs d).
Proof.
  unfold Tfidf.weights. apply Forall_forall. intros v Hv.
  apply in_map_iff in Hv. destruct Hv as (t & <- & _).
  pose proof (idf_ge_1 docs t). unfold Tfidf.tf.
  pose proof (pos_INR (count_occ string_dec d t)). nra.
Qed.

Lemma corpus_weights_row (docs : list (list string)) (i : nat) (x : list R) :
  nth_error (Tfidf.corpus_weights docs) i = Some x ->
  exists d, nth_error docs i = Some d /\ x = Tfidf.weights docs d.
Proof.
  unfold Tfidf.corpus_weights. rewrite nth_error_map.
  destruct (nth_error docs i) as [d |]; simpl; intros H;
    [| discriminate H].
  injection H as <-. eauto.
Qed.

(** X14: no entry of the content similarity matrix is negative: a weight
    is a count times an inverse document frequency of at least 1, and
    neither the division by a norm nor the dot product of two rows changes
    a sign. *)
Theorem similarity_matrix_nonnegative (analyzer : string -> list string)
    (movies_df : list Movies.row) (S : list (list R)) (i j : nat) :
  load_data_similarity_matrix analyzer movies_df = Ok S ->
  0 <= nth j (nth i S []) 0.
Proof.
  intros H. apply load_data_similarity_matrix_inv in H. subst S.
  rewrite cosine_matrix_entry.
  set (docs := map analyzer (map genres movies_df)).
  destruct (nth_error _ i) as [x |] eqn:Ex; [| lra].
  destruct (nth_error _ j) as [y |] eqn:Ey; [| lra].
  apply corpus_weights_row in Ex, Ey.
  destruct Ex as (d & _ & ->), Ey as (d' & _ & ->).
  unfold Tfidf.cosine.
  pose proof (dot_nonneg _ _ (weights_nonneg docs d)
                (weights_nonneg docs d')) as Hdot.
  pose proof (nonzero_norm_pos (Tfidf.weights docs d)) as Ha.
  pose proof (nonzero_norm_pos (Tfidf.weights docs d')) as Hb.
  apply Rmult_le_pos; [exact Hdot |].
  apply Rlt_le, Rinv_0_lt_compat. nra.
Qed.

Lemma abc_similarity_matrix :
  load_data_similarity_matrix words catalog_abc
  = Ok (Tfidf.cosine_similarity_matrix
          (Tfidf.corpus_weights (map words (map genres catalog_abc)))).
Proof.
  exact (load_data_similarity_matrix_Ok words catalog_abc abc_vocabulary).
Qed.

Lemma similarity_matrix_symmetric_witness :
  let S := Tfidf.cosine_similarity_matrix
             (Tfidf.corpus_weights (map words (map genres catalog_abc))) in
  nth 1 (nth 0 S []) 0 = nth 0 (nth 1 S []) 0.
Proof.
  exact (similarity_matrix_symmetric words catalog_abc _ 0 1
           abc_similarity_matrix).
Defined.

Lemma similarity_matrix_nonnegative_witness :
  let S := Tfidf.cosine_similarity_matrix
             (Tfidf.corpus_weights (map words (map genres catalog_abc))) in
  0 <= nth 1 (nth 0 S []) 0.
Proof.
  exact (similarity_matrix_nonnegative words catalog_abc _ 0 1
           abc_similarity_matrix).
Defined.
End SimilarityMatrix.

(** *** Movies with a genre *)

Lemma genre_name_token (n s : string) :
  In n genre_cols ->
  s = "" \/ (exists s', s = String " " s') ->
  words (n ++ s) <> [].
Proof.
  unfold genre_cols. intros Hn Hs.
  repeat (destruct Hn as [<- | Hn];
          [destruct Hs as [-> | [s' ->]]; unfold words; simpl; discriminate |]).
  destruct Hn.
Qed.

Lemma concat_names_shape (names : list string) :
  names <> [] ->
  exists n s, In n names
              /\ String.concat " " names = (n ++ s)%string
              /\ (s = "" \/ exists s', s = String " " s').
Proof.
  destruct names as [| n [| n' rest]]; intros H; [contradiction | |].
  - exists n, "". split; [left; reflexivity |]. split; [| auto].
    simpl. clear. induction n as [| c n IH]; simpl; congruence.
  - exists n, (" " ++ String.concat " " (n' :: rest))%string.
    split; [left; reflexivity |]. split; [reflexivity |].
    right. eexists. reflexivity.
Qed.

(** The genre string of a movie with a genre has a token. *)
Lemma genres_have_a_token (m : Movies.row) :
  genres m <> "" -> words (genres m) <> [].
Proof.
  unfold genres. intros H.
  set (names := map fst (filter snd (combine genre_cols (Movies.flags m))))
    in *.
  assert (Hne : names <> []) by (intros E; rewrite E in H; apply H; reflexivity).
  destruct (concat_names_shape names Hne) as (n & s & Hn & -> & Hs).
  apply genre_name_token; [| exact Hs].
  unfold names in Hn. apply in_map_iff in Hn.
  destruct Hn as ([g b] & <- & Hg). apply filter_In in Hg.
  destruct Hg as [Hg _]. apply in_combine_l in Hg. exact Hg.
Qed.

Section GenreMovies.
Local Open Scope R_scope.

(** X15: two movies with the same genres, at least one, have the same
    row in the matrix that [load_data] builds, and each scores the other
    as it scores itself: this is the tie on which the slice [[1:k+1]] of
    the content-based recommender cuts off another movie than the query. *)
Theorem same_genres_share_a_row (movies_df : list Movies.row) (i j : nat)
    (m m' : Movies.row) :
  nth_error movies_df i = Some m ->
  nth_error movies_df j = Some m' ->
  genres m = genres m' ->
  genres m <> "" ->
  exists S,
    load_data_similarity_matrix words movies_df = Ok S
    /\ nth i S [] = nth j S []
    /\ nth j (nth i S []) 0 = nth i (nth i S []) 0.
Proof.
  intros Hm Hm' Eg Hg.
  pose proof (genres_have_a_token m Hg) as Htok.
  assert (Hvoc : Tfidf.vocabulary (map words (map genres movies_df)) <> []).
  { apply (vocabulary_not_empty _ (words (genres m))); [| exact Htok].
    rewrite map_map.
    apply (in_map (fun m => words (genres m))), (nth_error_In _ _ Hm). }
  pose proof (load_data_similarity_matrix_Ok words movies_df Hvoc) as HS.
  cbv zeta in HS.
  eexists. split; [exact HS |].
  set (docs := map words (map genres movies_df)).
  assert (Ei : nth_error (Tfidf.corpus_weights docs) i
               = Some (Tfidf.weights docs (words (genres m)))).
  { unfold Tfidf.corpus_weights, docs. rewrite !nth_error_map, Hm.
    reflexivity. }
  assert (Ej : nth_error (Tfidf.corpus_weights docs) j
               = Some (Tfidf.weights docs (words (genres m)))).
  { unfold Tfidf.corpus_weights, docs. rewrite !nth_error_map, Hm', Eg.
    reflexivity. }
  split.
  - unfold Tfidf.cosine_similarity_matrix.
    rewrite !(nth_map_default
                (fun x => map (fun y => Tfidf.cosine x y)
                            (Tfidf.corpus_weights docs))).
    rewrite Ei, Ej. reflexivity.
  - rewrite !cosine_matrix_entry, Ei, Ej. reflexivity.
Qed.

Lemma same_genres_share_a_row_witness :
  exists S,
    load_data_similarity_matrix words catalog_twins = Ok S
    /\ nth 0 S [] = nth 2 S []
    /\ nth 2 (nth 0 S []) 0 = nth 0 (nth 0 S []) 0.
Proof.
  apply (same_genres_share_a_row catalog_twins 0 2
           (movie 246 "Chasing Amy" ["drama"; "romance"])
           (movie 268 "Chasing Amy" ["drama"; "romance"])).
  - reflexivity.
  - reflexivity.
  - reflexivity.
  - vm_compute. discriminate.
Defined.
End GenreMovies.

(** ** The cleaning of the titles *)

Example clean_toy_story : clean_title "Toy Story (1995)" = "Toy Story".
Proof. reflexivity. Qed.

Example clean_two_parentheses :
  clean_title " City of Lost Children, The (Cite des enfants) (1995) "
  = "City of Lost Children, The".
Proof. reflexivity. Qed.

Example clean_without_year : clean_title "unknown" = "unknown".
Proof. reflexivity. Qed.

Lemma prefix_app (p s q : string) :
  String.prefix p s = true -> String.prefix p (s ++ q) = true.
Proof.
  revert s. induction p as [| a p IH]; intros s H.
  - destruct (s ++ q)%string; reflexivity.
  - destruct s as [| b s]; [discriminate H |]. simpl in *.
    destruct (ascii_dec a b); [apply IH, H | discriminate H].
Qed.

Lemma prefix_self_app (p q : string) : String.prefix p (p ++ q) = true.
Proof.
  induction p as [| a p IH].
  - destruct q; reflexivity.
  - simpl. destruct (ascii_dec a a); [exact IH | contradiction].
Qed.

(** Cutting at the separator in front of which there is none. *)
Lemma before_app_sep (t rest : string) :
  (forall p q, t <> (p ++ " (" ++ q)%string) ->
  before " (" (t ++ " (" ++ rest) = t.
Proof.
  induction t as [| c t IH]; intros Hfree.
  - change ("" ++ " (" ++ rest)%string with (String " " (String "(" rest)).
    cbn [before].
    change (String " " (String "(" rest)) with (" (" ++ rest)%string.
    rewrite prefix_self_app. reflexivity.
  - change (String c t ++ " (" ++ rest)%string
      with (String c (t ++ " (" ++ rest)).
    cbn [before].
    destruct (String.prefix " (" (String c (t ++ " (" ++ rest))) eqn:E.
    + exfalso. cbn [String.prefix] in E.
      destruct (ascii_dec " " c) as [<- |]; [| discriminate E].
      destruct t as [| d t]; cbn [append String.prefix] in E.
      * destruct (ascii_dec "(" " ") as [e | _];
          [discriminate e | discriminate E].
      * destruct (ascii_dec "(" d) as [<- |]; [| discriminate E].
        apply (Hfree "" t). reflexivity.
    + f_equal. apply IH. intros p q Et.
      apply (Hfree (String c p) q). rewrite Et. reflexivity.
Qed.

(** X16: the year is cut off a title.  Whatever follows the first [" ("]
    is dropped and the rest is stripped, so two releases of one name, as
    "Chasing Amy (1997)" listed twice or remakes of different years, are
    given the same title. *)
Theorem clean_title_drops_the_suffix (t rest : string) :
  (forall p q, t <> (p ++ " (" ++ q)%string) ->
  clean_title (t ++ " (" ++ rest) = strip t.
Proof.
  intros Hfree. unfold clean_title.
  rewrite (before_app_sep t rest Hfree). reflexivity.
Qed.

Lemma no_parenthesis_in_sabrina (p q : string) :
  "Sabrina" <> (p ++ " (" ++ q)%string.
Proof.
  intros E.
  do 7 (destruct p as [| ? p]; simpl in E; [discriminate E |];
        injection E as <- E).
  destruct p; discriminate E.
Qed.

Lemma clean_title_drops_the_suffix_witness :
  clean_title ("Sabrina" ++ " (" ++ "1995)") = strip "Sabrina"
  /\ clean_title ("Sabrina" ++ " (" ++ "1954)") = strip "Sabrina".
Proof.
  split.
  - exact (clean_title_drops_the_suffix "Sabrina" "1995)"
             no_parenthesis_in_sabrina).
  - exact (clean_title_drops_the_suffix "Sabrina" "1954)"
             no_parenthesis_in_sabrina).
Defined.

Lemma rstrip_idempotent (s : string) : rstrip (rstrip s) = rstrip s.
Proof.
  induction s as [| c s IH]; simpl.
  - reflexivity.
  - destruct (rstrip s) as [| d r] eqn:E.
    + destruct (is_space c) eqn:Ec; simpl; [reflexivity |].
      rewrite Ec. reflexivity.
    + cbn [rstrip]. cbn [rstrip] in IH. rewrite IH. reflexivity.
Qed.

Lemma rstrip_keeps_head (c : ascii) (s : string) :
  is_space c = false -> exists r, rstrip (String c s) = String c r.
Proof.
  intros Hc. simpl. destruct (rstrip s); [rewrite Hc |]; eauto.
Qed.

Lemma lstrip_head (s : string) :
  lstrip s = EmptyString
  \/ exists c r, lstrip s = String c r /\ is_space c = false.
Proof.
  induction s as [| c s IH]; simpl.
  - left. reflexivity.
  - destruct (is_space c) eqn:E; [exact IH |]. right. eauto.
Qed.

Lemma lstrip_strip (s : string) : lstrip (strip s) = strip s.
Proof.
  unfold strip.
  destruct (lstrip_head s) as [-> | (c & r & -> & Hc)]; [reflexivity |].
  destruct (rstrip_keeps_head c r Hc) as [r' ->].
  simpl. rewrite Hc. reflexivity.
Qed.

Lemma strip_idempotent (s : string) : strip (strip s) = strip s.
Proof.
  unfold strip at 1. rewrite lstrip_strip.
  unfold strip. apply rstrip_idempotent.
Qed.

Lemma lstrip_is_suffix (s : string) : exists p, s = (p ++ lstrip s)%string.
Proof.
  induction s as [| c s [p IH]]; simpl.
  - exists "". reflexivity.
  - destruct (is_space c).
    + exists (String c p). simpl. rewrite <- IH. reflexivity.
    + exists "". reflexivity.
Qed.

Lemma rstrip_is_prefix (s : string) : exists q, s = (rstrip s ++ q)%string.
Proof.
  induction s as [| c s [q IH]]; simpl.
  - exists "". reflexivity.
  - destruct (rstrip s) as [| d r].
    + destruct (is_space c).
      * exists (String c s). reflexivity.
      * exists s. reflexivity.
    + exists q. simpl. simpl in IH. rewrite <- IH. reflexivity.
Qed.

(** A string without the separator keeps it out of its suffixes and
    prefixes. *)
Lemma before_suffix (sep p y : string) :
  before sep (p ++ y) = (p ++ y)%string -> before sep y = y.
Proof.
  induction p as [| c p IH]; intros H.
  - exact H.
  - change (String c p ++ y)%string with (String c (p ++ y)) in H.
    cbn [before] in H.
    destruct (String.prefix sep (String c (p ++ y))); [discriminate H |].
    injection H as H. apply IH, H.
Qed.

Lemma before_prefix (sep p q : string) :
  before sep (p ++ q) = (p ++ q)%string -> before sep p = p.
Proof.
  induction p as [| c p IH]; intros H.
  - reflexivity.
  - change (String c p ++ q)%string with (String c (p ++ q)) in H.
    cbn [before] in *.
    destruct (String.prefix sep (String c (p ++ q))) eqn:E;
      [discriminate H |].
    injection H as H.
    destruct (String.prefix sep (String c p)) eqn:E'.
    + apply (prefix_app _ _ q) in E'.
      change (String c p ++ q)%string with (String c (p ++ q)) in E'.
      congruence.
    + f_equal. apply IH, H.
Qed.

Lemma before_is_prefix (sep s : string) :
  exists q, s = (before sep s ++ q)%string.
Proof.
  induction s as [| c s [q IH]].
  - exists "". reflexivity.
  - cbn [before]. destruct (String.prefix sep (String c s)).
    + exists (String c s). reflexivity.
    + exists q. simpl. rewrite <- IH. reflexivity.
Qed.

Lemma before_idempotent (sep s : string) :
  before sep (before sep s) = before sep s.
Proof.
  induction s as [| c s IH].
  - reflexivity.
  - cbn [before]. destruct (String.prefix sep (String c s)) eqn:E.
    + reflexivity.
    + cbn [before]. rewrite IH.
      destruct (String.prefix sep (String c (before sep s))) eqn:E';
        [| reflexivity].
      destruct (before_is_prefix sep s) as [q Hq].
      apply (prefix_app _ _ q) in E'.
      change (String c (before sep s) ++ q)%string
        with (String c (before sep s ++ q)) in E'.
      rewrite <- Hq in E'. congruence.
Qed.

Lemma before_strip (sep y : string) :
  before sep y = y -> before sep (strip y) = strip y.
Proof.
  intros H. unfold strip.
  destruct (lstrip_is_suffix y) as [p Hp].
  rewrite Hp in H. apply before_suffix in H.
  destruct (rstrip_is_prefix (lstrip y)) as [q Hq].
  rewrite Hq in H. apply before_prefix in H. exact H.
Qed.

(** X17: cleaning is idempotent: a cleaned title is left as it is by a
    second cleaning, for it holds no [" ("] and has no white space at either
    end. *)
Theorem clean_title_idempotent (x : string) :
  clean_title (clean_title x) = clean_title x
  /\ before " (" (clean_title x) = clean_title x
  /\ strip (clean_title x) = clean_title x.
Proof.
  assert (Hb : before " (" (clean_title x) = clean_title x).
  { unfold clean_title. apply before_strip, before_idempotent. }
  assert (Hs : strip (clean_title x) = clean_title x).
  { unfold clean_title. apply strip_idempotent. }
  split; [| split; assumption].
  unfold clean_title at 1. rewrite Hb. exact Hs.
Qed.

(** ** The list of titles of the page *)

Lemma ascii_compare_refl (a : ascii) : Ascii.compare a a = Eq.
Proof. unfold Ascii.compare. apply N.compare_refl. Qed.

Lemma string_compare_refl (s : string) : String.compare s s = Eq.
Proof.
  induction s as [| a s IH]; simpl; [reflexivity |].
  rewrite ascii_compare_refl. exact IH.
Qed.

Lemma string_compare_trans (a b c : string) :
  String.compare a b = Lt -> String.compare b c = Lt ->
  String.compare a c = Lt.
Proof.
  revert b c. induction a as [| x a IH]; intros [| y b] [| z c];
    simpl; try discriminate; try reflexivity.
  destruct (Ascii.compare x y) eqn:Exy; try discriminate;
    destruct (Ascii.compare y z) eqn:Eyz; try discriminate; intros H1 H2.
  - apply Ascii.compare_eq_iff in Exy, Eyz. subst.
    rewrite ascii_compare_refl. apply (IH b c); assumption.
  - apply Ascii.compare_eq_iff in Exy. subst. rewrite Eyz. reflexivity.
  - apply Ascii.compare_eq_iff in Eyz. subst. rewrite Exy. reflexivity.
  - unfold Ascii.compare in *.
    rewrite N.compare_lt_iff in Exy, Eyz.
    replace (N_of_ascii x ?= N_of_ascii z)%N with Lt; [reflexivity |].
    symmetry. apply N.compare_lt_iff. lia.
Qed.

Lemma string_leb_trans (a b c : string) :
  String.leb a b = true -> String.leb b c = true -> String.leb a c = true.
Proof.
  unfold String.leb.
  destruct (String.compare a b) eqn:Eab; try discriminate;
    destruct (String.compare b c) eqn:Ebc; try discriminate; intros _ _.
  - apply String.compare_eq_iff in Eab, Ebc. subst.
    rewrite string_compare_refl. reflexivity.
  - apply String.compare_eq_iff in Eab. subst. rewrite Ebc. reflexivity.
  - apply String.compare_eq_iff in Ebc. subst. rewrite Eab. reflexivity.
  - rewrite (string_compare_trans a b c Eab Ebc). reflexivity.
Qed.

Lemma insert_string_perm (x : string) (l : list string) :
  Permutation (insert_string x l) (x :: l).
Proof.
  induction l as [| y l IH]; simpl.
  - apply Permutation_refl.
  - destruct (String.leb x y).
    + apply Permutation_refl.
    + eapply Permutation_trans; [apply perm_skip, IH | apply perm_swap].
Qed.

Lemma sorted_strings_perm (l : list string) :
  Permutation (sorted_strings l) l.
Proof.
  induction l as [| x l IH]; simpl.
  - apply Permutation_refl.
  - eapply Permutation_trans; [apply insert_string_perm | apply perm_skip, IH].
Qed.

Lemma insert_string_sorted (x : string) (l : list string) :
  StronglySorted string_le l -> StronglySorted string_le (insert_string x l).
Proof.
  induction 1 as [| y l Hl IH Hy]; simpl.
  - repeat constructor.
  - destruct (String.leb x y) eqn:E.
    + constructor; [constructor; assumption |].
      constructor; [exact E |].
      rewrite Forall_forall in *. intros z Hz.
      apply (string_leb_trans x y z E), Hy, Hz.
    + constructor; [exact IH |].
      rewrite Forall_forall in *. intros z Hz.
      apply (Permutation_in _ (insert_string_perm x l)) in Hz.
      destruct Hz as [<- | Hz]; [| apply Hy, Hz].
      unfold string_le.
      destruct (String.leb_total x y) as [H | H]; [congruence | exact H].
Qed.

Lemma sorted_strings_sorted (l : list string) :
  StronglySorted string_le (sorted_strings l).
Proof.
  induction l as [| x l IH]; simpl.
  - constructor.
  - apply insert_string_sorted, IH.
Qed.

Lemma strictly_sorted_strings (l : list string) :
  NoDup l -> StronglySorted string_le l -> StronglySorted string_lt l.
Proof.
  intros Hnd Hs. induction Hs as [| a l Hl IH Ha]; constructor.
  - apply IH. inversion Hnd; assumption.
  - apply NoDup_cons_iff in Hnd. destruct Hnd as [Hnotin _].
    rewrite Forall_forall in *. intros z Hz. specialize (Ha z Hz).
    unfold string_le, string_lt, String.leb, String.ltb in *.
    destruct (String.compare a z) eqn:E; try reflexivity; try discriminate.
    apply String.compare_eq_iff in E. subst z. contradiction.
Qed.

(** X18: the list of titles that the page offers is in strictly ascending
    order of the code points, so it has no title twice; it holds the titles
    of the catalog and nothing else, and is no longer than the catalog. *)
Theorem get_movies_list_sorted (movies_df : list Movies.row) :
  StronglySorted string_lt (get_movies_list movies_df)
  /\ (forall t, In t (get_movies_list movies_df)
                <-> In t (map Movies.title movies_df))
  /\ (length (get_movies_list movies_df) <= length movies_df)%nat.
Proof.
  unfold get_movies_list.
  pose proof (sorted_strings_perm
                (first_occurrences (map Movies.title movies_df))) as Hperm.
  split; [| split].
  - apply strictly_sorted_strings; [| apply sorted_strings_sorted].
    apply (Permutation_NoDup (Permutation_sym Hperm)),
      first_occurrences_NoDup.
  - intros t.
    rewrite <- (first_occurrences_In t (map Movies.title movies_df)). split.
    + apply Permutation_in, Hperm.
    + apply Permutation_in, Permutation_sym, Hperm.
  - rewrite (Permutation_length Hperm).
    pose proof (first_occurrences_length (map Movies.title movies_df)) as H.
    rewrite length_map in H. exact H.
Qed.

Example movies_list_of_the_twins :
  get_movies_list catalog_twins
  = ["Chasing Amy"; "Turbo: A Power Rangers Movie"].
Proof. reflexivity. Qed.

Lemma series_contains_In (t : string) (s : Series string nat) :
  series_contains t s = true <-> In t (map fst s).
Proof.
  unfold series_contains. rewrite existsb_exists, in_map_iff. split.
  - intros (e & He & Et). apply String.eqb_eq in Et. eauto.
  - intros (e & Et & He). exists e. split; [exact He |].
    apply String.eqb_eq, Et.
Qed.

(** X19: the titles that the page offers are exactly the labels of the
    reverse index: for a title of the list the guard [title not in indices]
    of the content-based recommender does not fire, and for any other title
    the recommender returns the empty list. *)
Theorem movies_list_titles_are_indexed (movies_df : list Movies.row)
    (t : string) :
  (In t (get_movies_list movies_df)
   <-> series_contains t (load_data_indices movies_df) = true)
  /\ (~ In t (get_movies_list movies_df) ->
      forall similarity_matrix k,
        get_content_based_recommendations t movies_df similarity_matrix
          (load_data_indices movies_df) k = Ok []).
Proof.
  assert (Hiff : In t (get_movies_list movies_df)
                 <-> series_contains t (load_data_indices movies_df) = true).
  { rewrite series_contains_In, load_data_indices_every_row.
    rewrite <- (length_map Movies.title movies_df).
    unfold get_movies_list.
    pose proof (sorted_strings_perm
                  (first_occurrences (map Movies.title movies_df))) as Hperm.
    assert (Hfst : map fst (combine (map Movies.title movies_df)
                              (seq 0 (length (map Movies.title movies_df))))
                   = map Movies.title movies_df)
      by (apply map_fst_combine, length_seq).
    rewrite Hfst,
      <- (first_occurrences_In t (map Movies.title movies_df)). split.
    - apply Permutation_in, Hperm.
    - apply Permutation_in, Permutation_sym, Hperm. }
  split; [exact Hiff |].
  intros Hnot similarity_matrix k.
  unfold get_content_based_recommendations.
  destruct (series_contains t (load_data_indices movies_df)) eqn:E.
  - exfalso. apply Hnot, Hiff. reflexivity.
  - reflexivity.
Qed.

Lemma movies_list_titles_are_indexed_witness :
  get_content_based_recommendations "Delta" catalog_abc similarity_abc
    (load_data_indices catalog_abc) 5 = Ok [].
Proof.
  apply (proj2 (movies_list_titles_are_indexed catalog_abc "Delta")).
  simpl. intuition discriminate.
Defined.
